(** * A shallow embedding of lib/NeuralNetwork.ts

    The engine is a [Matrix] class over [number[][]] grids and a
    [NeuralNetwork] class that owns four matrices.  JavaScript numbers are
    IEEE binary64 values: they are Rocq's primitive floats here, so that
    every arithmetic step of the code is the kernel's own floating-point
    operation.  Grids are mutable objects which [serialize] and
    [deserialize] pass around by reference: they live in an explicit store,
    and a matrix holds the address of its grid.  A grid is one object of
    the store, rows included: the constructor makes every row afresh, and
    no method of the file hands out a row on its own.  The stores of the
    model are therefore those in which every row array sits at one
    position of one grid; an object built by hand around one row array
    used twice is not among them.  Sizes are natural numbers: [Array(n)]
    for an [n] that is negative, fractional or at least 2^32, a
    RangeError, is not among the calls of the model either. *)

From Stdlib Require Import Floats.PrimFloat.
From Stdlib Require Floats.SpecFloat Floats.FloatOps Floats.FloatAxioms.
From stdpp Require Import base list strings.

Set Warnings "-inexact-float".

(** ** Host functions

    [Math.exp] and [Math.random] come from the JavaScript host.  The n-th
    call of [Math.random] in a run returns [Math_random n]. *)

Class Host := {
  Math_exp : float → float;
  Math_random : nat → float;
}.

(** ** Store, exceptions and the monad of method bodies *)

(** [throw new Error(message)], and the [TypeError] raised by reading a
    property of [undefined] (a row index past the end of a grid). *)
Inductive exn :=
  | Error (message : string)
  | TypeError.

Inductive outcome (A : Type) :=
  | Ok (a : A)
  | Throw (e : exn).
Arguments Ok {A} a.
Arguments Throw {A} e.

Abbreviation grid := (list (list float)).
Abbreviation loc := nat.

(** The store: the grids allocated so far (a grid's address is its position)
    and the number of [Math.random] calls made so far. *)
Record state := State {
  heap : list grid;
  draws : nat;
}.

Definition M (A : Type) : Type := state → outcome A * state.

Definition ret {A} (a : A) : M A := λ s, (Ok a, s).

Definition throw {A} (e : exn) : M A := λ s, (Throw e, s).

Definition bind {A B} (m : M A) (k : A → M B) : M B := λ s,
  match m s with
  | (Ok a, s') => k a s'
  | (Throw e, s') => (Throw e, s')
  end.

Notation "'let!' x ':=' m 'in' k" := (bind m (λ x, k))
  (at level 10, x name, m at level 100, k at level 200,
   format "'[v' 'let!'  x  ':='  m  'in' '/' k ']'").

(** [for (let i = 0; i < n; i++) acc = body(i, acc)], started at index [i]
    with [n] iterations left. *)
Fixpoint loop_from {A} (n i : nat) (body : nat → A → M A) (acc : A) : M A :=
  match n with
  | 0 => ret acc
  | S n' => let! acc' := body i acc in loop_from n' (S i) body acc'
  end.

Definition loop {A} (n : nat) (body : nat → A → M A) (acc : A) : M A :=
  loop_from n 0 body acc.

(** The doubly nested loop every matrix method runs:
    [for (i < rows) for (j < cols) body(i, j)]. *)
Definition each_cell (rows cols : nat) (body : nat → nat → M unit) : M unit :=
  loop rows (λ i _, loop cols (λ j _, body i j) tt) tt.

(** [new Array]: a fresh grid, placed at the end of the store. *)
Definition alloc (g : grid) (s : state) : state :=
  State (heap s ++ [g]) (draws s).

(** The grid at address [l] replaced by [g]. *)
Definition store (l : loc) (g : grid) (s : state) : state :=
  State (<[l := g]> (heap s)) (draws s).

(** [row[j] = v].  Inside the row the cell is overwritten; at [j = length]
    the array grows by one; further out JavaScript leaves holes, which read
    as [undefined] and so as NaN in every arithmetic use below. *)
Definition row_set (j : nat) (v : float) (row : list float) : list float :=
  if decide (j < length row) then <[j := v]> row
  else row ++ replicate (j - length row) nan ++ [v].

(** [data[i][j]] as a value.  A missing row is [undefined[j]], a TypeError.
    A missing cell is [undefined], which counts as NaN in arithmetic, and
    every cell read in this file ends in arithmetic ([toArray] alone hands
    cells out, those of a matrix its caller has just computed): the read
    yields NaN.  An address outside the store is never formed, every
    address being that of an allocated grid; it reads as a missing row. *)
Definition read (l : loc) (i j : nat) : M float := λ s,
  match heap s !! l with
  | Some g =>
      match g !! i with
      | Some row => (Ok (default nan (row !! j)), s)
      | None => (Throw TypeError, s)
      end
  | None => (Throw TypeError, s)
  end.

(** [data[i][j] = v]. *)
Definition write (l : loc) (i j : nat) (v : float) : M unit := λ s,
  match heap s !! l with
  | Some g =>
      match g !! i with
      | Some row => (Ok tt, store l (<[i := row_set j v row]> g) s)
      | None => (Throw TypeError, s)
      end
  | None => (Throw TypeError, s)
  end.

(** [Math.random()]. *)
Definition random `{Host} : M float := λ s,
  (Ok (Math_random (draws s)), State (heap s) (S (draws s))).

(** ** class Matrix *)

Module Matrix.

Record t := Make {
  rows : nat;
  cols : nat;
  data : loc;
}.

(** [Array(rows).fill(0).map(() => Array(cols).fill(0))] *)
Definition constructor (rows cols : nat) : M t := λ s,
  (Ok (Make rows cols (length (heap s))),
   alloc (replicate rows (replicate cols 0%float)) s).

Definition fromArray (arr : list float) : M t :=
  let! m := constructor (length arr) 1 in
  let! _ := loop (length arr)
              (λ i _, write (data m) i 0 (default nan (arr !! i))) tt in
  ret m.

Definition subtract (a b : t) : M t :=
  if decide (rows a ≠ rows b ∨ cols a ≠ cols b) then
    throw (Error "Matrix dimensions must match for subtraction.")
  else
    let! result := constructor (rows a) (cols a) in
    let! _ := each_cell (rows result) (cols result) (λ i j,
                let! x := read (data a) i j in
                let! y := read (data b) i j in
                write (data result) i j (x - y)%float) in
    ret result.

Definition transpose (matrix : t) : M t :=
  let! result := constructor (cols matrix) (rows matrix) in
  let! _ := each_cell (rows matrix) (cols matrix) (λ i j,
              let! x := read (data matrix) i j in
              write (data result) j i x) in
  ret result.

(** The static [Matrix.multiply(a, b)]: the matrix product. *)
Definition multiply (a b : t) : M t :=
  if decide (cols a ≠ rows b) then
    throw (Error "Columns of A must match rows of B for dot product.")
  else
    let! result := constructor (rows a) (cols b) in
    let! _ := each_cell (rows result) (cols result) (λ i j,
                let! sum := loop (cols a) (λ k sum,
                              let! x := read (data a) i k in
                              let! y := read (data b) k j in
                              ret (sum + x * y)%float) 0%float in
                write (data result) i j sum) in
    ret result.

(** The static [Matrix.map(matrix, fn)]. *)
Definition map (matrix : t) (fn : float → float) : M t :=
  let! result := constructor (rows matrix) (cols matrix) in
  let! _ := each_cell (rows matrix) (cols matrix) (λ i j,
              let! x := read (data matrix) i j in
              write (data result) i j (fn x)) in
  ret result.

End Matrix.

(** The argument of [add] and of the instance [multiply]: [Matrix | number]. *)
Inductive operand :=
  | OfMatrix (n : Matrix.t)
  | OfNumber (n : float).

(** The instance methods.  Those that end in [return this] return their
    receiver. *)
Module MatrixPrototype.
Import Matrix.

Definition toArray (this : t) : M (list float) :=
  loop (rows this) (λ i arr,
    loop (cols this) (λ j arr,
      let! x := read (data this) i j in
      ret (arr ++ [x])) arr) [].

Definition randomize `{Host} (this : t) : M t :=
  let! _ := each_cell (rows this) (cols this) (λ i j,
              let! r := random in
              write (data this) i j (r * 2 - 1)%float) in
  ret this.

Definition add (this : t) (n : operand) : M t :=
  match n with
  | OfMatrix n =>
      if decide (rows this ≠ rows n ∨ cols this ≠ cols n) then
        throw (Error "Matrix dimensions must match for addition.")
      else
        let! _ := each_cell (rows this) (cols this) (λ i j,
                    let! x := read (data this) i j in
                    let! y := read (data n) i j in
                    write (data this) i j (x + y)%float) in
        ret this
  | OfNumber n =>
      let! _ := each_cell (rows this) (cols this) (λ i j,
                  let! x := read (data this) i j in
                  write (data this) i j (x + n)%float) in
      ret this
  end.

(** The instance [multiply]: element-wise, or by a scalar. *)
Definition multiply (this : t) (n : operand) : M t :=
  match n with
  | OfMatrix n =>
      if decide (rows this ≠ rows n ∨ cols this ≠ cols n) then
        throw (Error "Matrix dimensions must match for element-wise multiplication.")
      else
        let! _ := each_cell (rows this) (cols this) (λ i j,
                    let! x := read (data this) i j in
                    let! y := read (data n) i j in
                    write (data this) i j (x * y)%float) in
        ret this
  | OfNumber n =>
      let! _ := each_cell (rows this) (cols this) (λ i j,
                  let! x := read (data this) i j in
                  write (data this) i j (x * n)%float) in
      ret this
  end.

Definition map (this : t) (fn : float → float) : M t :=
  let! _ := each_cell (rows this) (cols this) (λ i j,
              let! x := read (data this) i j in
              write (data this) i j (fn x)) in
  ret this.

End MatrixPrototype.

Definition sigmoid `{Host} (x : float) : float :=
  (1 / (1 + Math_exp (- x)))%float.

Definition dsigmoid (y : float) : float :=
  (y * (1 - y))%float.

(** ** types.ts: the snapshot

    The four grids of a snapshot are arrays, held by reference. *)
Module SerializedNetwork.

Record t := Make {
  inputNodes : nat;
  hiddenNodes : nat;
  outputNodes : nat;
  weights_ih : loc;
  weights_ho : loc;
  bias_h : loc;
  bias_o : loc;
  learningRate : float;
}.

End SerializedNetwork.

(** ** class NeuralNetwork

    A method receives the object as [this].  The methods that assign
    fields ([constructor], [setLearningRate], [deserialize]) return the
    object with its new fields; [predict] and [train] assign none, so all
    they can change is the store. *)
Module NeuralNetwork.

Record t := Make {
  inputNodes : nat;
  hiddenNodes : nat;
  outputNodes : nat;
  weights_ih : Matrix.t;
  weights_ho : Matrix.t;
  bias_h : Matrix.t;
  bias_o : Matrix.t;
  learningRate : float;
}.

Definition constructor `{Host} (input hidden output : nat) : M t :=
  let! w_ih := (let! m := Matrix.constructor hidden input in
                MatrixPrototype.randomize m) in
  let! w_ho := (let! m := Matrix.constructor output hidden in
                MatrixPrototype.randomize m) in
  let! b_h := (let! m := Matrix.constructor hidden 1 in
               MatrixPrototype.randomize m) in
  let! b_o := (let! m := Matrix.constructor output 1 in
               MatrixPrototype.randomize m) in
  ret (Make input hidden output w_ih w_ho b_h b_o 0.1%float).

Definition setLearningRate (this : t) (rate : float) : t :=
  Make (inputNodes this) (hiddenNodes this) (outputNodes this)
       (weights_ih this) (weights_ho this) (bias_h this) (bias_o this) rate.

Definition predict `{Host} (this : t) (input_array : list float)
  : M (list float) :=
  let! inputs := Matrix.fromArray input_array in
  let! hidden := Matrix.multiply (weights_ih this) inputs in
  let! _ := MatrixPrototype.add hidden (OfMatrix (bias_h this)) in
  let! _ := MatrixPrototype.map hidden sigmoid in
  let! output := Matrix.multiply (weights_ho this) hidden in
  let! _ := MatrixPrototype.add output (OfMatrix (bias_o this)) in
  let! _ := MatrixPrototype.map output sigmoid in
  MatrixPrototype.toArray output.

Definition train `{Host} (this : t) (input_array target_array : list float)
  : M unit :=
  let! inputs := Matrix.fromArray input_array in
  let! targets := Matrix.fromArray target_array in
  (* Feedforward *)
  let! hidden := Matrix.multiply (weights_ih this) inputs in
  let! _ := MatrixPrototype.add hidden (OfMatrix (bias_h this)) in
  let! _ := MatrixPrototype.map hidden sigmoid in
  let! outputs := Matrix.multiply (weights_ho this) hidden in
  let! _ := MatrixPrototype.add outputs (OfMatrix (bias_o this)) in
  let! _ := MatrixPrototype.map outputs sigmoid in
  (* Calculate output errors *)
  let! output_errors := Matrix.subtract targets outputs in
  (* Calculate output gradient *)
  let! gradients := Matrix.map outputs dsigmoid in
  let! _ := MatrixPrototype.multiply gradients (OfMatrix output_errors) in
  let! _ := MatrixPrototype.multiply gradients (OfNumber (learningRate this)) in
  (* Calculate deltas for hidden-to-output weights *)
  let! hidden_t := Matrix.transpose hidden in
  let! weight_ho_deltas := Matrix.multiply gradients hidden_t in
  (* Adjust the weights and biases *)
  let! _ := MatrixPrototype.add (weights_ho this) (OfMatrix weight_ho_deltas) in
  let! _ := MatrixPrototype.add (bias_o this) (OfMatrix gradients) in
  (* Calculate hidden layer errors *)
  let! who_t := Matrix.transpose (weights_ho this) in
  let! hidden_errors := Matrix.multiply who_t output_errors in
  (* Calculate hidden gradient *)
  let! hidden_gradient := Matrix.map hidden dsigmoid in
  let! _ := MatrixPrototype.multiply hidden_gradient (OfMatrix hidden_errors) in
  let! _ := MatrixPrototype.multiply hidden_gradient (OfNumber (learningRate this)) in
  (* Calculate deltas for input-to-hidden weights *)
  let! inputs_t := Matrix.transpose inputs in
  let! weight_ih_deltas := Matrix.multiply hidden_gradient inputs_t in
  (* Adjust the weights and biases *)
  let! _ := MatrixPrototype.add (weights_ih this) (OfMatrix weight_ih_deltas) in
  let! _ := MatrixPrototype.add (bias_h this) (OfMatrix hidden_gradient) in
  ret tt.

(** The object literal copies the four numbers and takes the four
    [data] arrays as they are. *)
Definition serialize (this : t) : SerializedNetwork.t :=
  SerializedNetwork.Make
    (inputNodes this) (hiddenNodes this) (outputNodes this)
    (Matrix.data (weights_ih this)) (Matrix.data (weights_ho this))
    (Matrix.data (bias_h this)) (Matrix.data (bias_o this))
    (learningRate this).

(** Each matrix is built anew, then its [data] is replaced by the
    snapshot's array. *)
Definition deserialize (this : t) (data : SerializedNetwork.t) : M t :=
  let inputNodes := SerializedNetwork.inputNodes data in
  let hiddenNodes := SerializedNetwork.hiddenNodes data in
  let outputNodes := SerializedNetwork.outputNodes data in
  let learningRate := SerializedNetwork.learningRate data in
  let! w_ih := Matrix.constructor hiddenNodes inputNodes in
  let w_ih := Matrix.Make (Matrix.rows w_ih) (Matrix.cols w_ih)
                (SerializedNetwork.weights_ih data) in
  let! w_ho := Matrix.constructor outputNodes hiddenNodes in
  let w_ho := Matrix.Make (Matrix.rows w_ho) (Matrix.cols w_ho)
                (SerializedNetwork.weights_ho data) in
  let! b_h := Matrix.constructor hiddenNodes 1 in
  let b_h := Matrix.Make (Matrix.rows b_h) (Matrix.cols b_h)
               (SerializedNetwork.bias_h data) in
  let! b_o := Matrix.constructor outputNodes 1 in
  let b_o := Matrix.Make (Matrix.rows b_o) (Matrix.cols b_o)
               (SerializedNetwork.bias_o data) in
  ret (Make inputNodes hiddenNodes outputNodes w_ih w_ho b_h b_o learningRate).

End NeuralNetwork.

(** ** lib/DataHelper.ts

    A string is the list of its code points: that is what
    [for (const char of name)] iterates.  The vocabulary is
    ['...'.split('')], one UTF-16 unit per element; its 38 characters are
    all in the Myanmar block (U+1000 to U+1038), so each is one code
    point, and a code point of a name equals an element of the vocabulary
    exactly when the one-character strings are [===]. *)

(** [a > b] on array elements that may be [undefined]: a comparison with
    [undefined] compares with NaN and is false. *)
Definition js_gt (a b : option float) : bool :=
  PrimFloat.ltb (default nan b) (default nan a).

Module DataHelper.

Definition MYANMAR_CHARS : list N :=
  [0x1000; 0x1001; 0x1002; 0x1003; 0x1004; 0x1005; 0x1006; 0x1007;
   0x1008; 0x100a; 0x1010; 0x1011; 0x1012; 0x1013; 0x1014; 0x1015;
   0x1016; 0x1017; 0x1018; 0x1019; 0x101a; 0x101b; 0x101c; 0x101d;
   0x101e; 0x101f; 0x1020; 0x1021; 0x102c; 0x102d; 0x102e; 0x102f;
   0x1030; 0x1031; 0x1032; 0x1036; 0x1037; 0x1038]%N.

Definition VOCAB_SIZE : nat := length MYANMAR_CHARS.

Definition GENDERS : list string := ["male"; "female"].

(** [Array.prototype.indexOf]: the first index holding [c]; [None] is
    [-1]. *)
Fixpoint indexOf (l : list N) (c : N) : option nat :=
  match l with
  | [] => None
  | x :: l' => if decide (x = c) then Some 0 else S <$> indexOf l' c
  end.

Definition nameToVector (name : list N) : list float :=
  fold_left
    (λ vector char,
       match indexOf MYANMAR_CHARS char with
       | Some index => row_set index 1%float vector
       | None => vector
       end)
    name (replicate VOCAB_SIZE 0%float).

(** The parameter is a string at run time; anything but ['male'] takes
    the second branch. *)
Definition genderToVector (gender : string) : list float :=
  if decide (gender = "male") then [1; 0]%float else [0; 1]%float.

(** [{ gender, confidence }]; the confidence is an element of the output
    vector, [undefined] ([None]) when the vector is too short. *)
Record prediction := Prediction {
  gender : string;
  confidence : option float;
}.

Definition vectorToPrediction (outputVector : list float) : prediction :=
  let maleConfidence := outputVector !! 0 in
  let femaleConfidence := outputVector !! 1 in
  if js_gt maleConfidence femaleConfidence
  then Prediction "male" maleConfidence
  else Prediction "female" femaleConfidence.

End DataHelper.

(** The name classifier's configuration (its App component). *)
Definition HIDDEN_NODES : nat := 15.
Definition OUTPUT_NODES : nat := length DataHelper.GENDERS.

(** * What the methods compute: grids as values *)

(** ** Shapes, cells, tabulation *)

(** An [r]×[c] grid: [r] rows of [c] entries each. *)
Definition grid_shape (r c : nat) (g : grid) : Prop :=
  length g = r ∧ Forall (λ row, length row = c) g.

(** Entry (i, j), as [read] sees it. *)
Definition cell (g : grid) (i j : nat) : float :=
  default nan (g !! i ≫= (.!! j)).

(** Entry (i, j) overwritten, inside the grid. *)
Definition grid_set (i j : nat) (v : float) (g : grid) : grid :=
  alter (<[j := v]>) i g.

(** The [r]×[c] grid whose entry (i, j) is [F i j]. *)
Definition tabulate (r c : nat) (F : nat → nat → float) : grid :=
  (λ i, F i <$> seq 0 c) <$> seq 0 r.

(** ** Matrix algebra on grid values

    What each method computes, cell by cell, in the order of operations of
    the code.  The matrix product sums [a_i0 * b_0j], [a_i1 * b_1j], ...
    from the left, starting from [0]. *)

Definition col_vector (arr : list float) : grid := (λ x, [x]) <$> arr.

Definition dot_sum (n : nat) (f : nat → float) : float :=
  fold_left (λ sum k, (sum + f k)%float) (seq 0 n) 0%float.

Definition g_mul (r n c : nat) (A B : grid) : grid :=
  tabulate r c (λ i j, dot_sum n (λ k, (cell A i k * cell B k j)%float)).

Definition g_add (r c : nat) (A B : grid) : grid :=
  tabulate r c (λ i j, (cell A i j + cell B i j)%float).

Definition g_sub (r c : nat) (A B : grid) : grid :=
  tabulate r c (λ i j, (cell A i j - cell B i j)%float).

Definition g_hadamard (r c : nat) (A B : grid) : grid :=
  tabulate r c (λ i j, (cell A i j * cell B i j)%float).

Definition g_scale (r c : nat) (A : grid) (x : float) : grid :=
  tabulate r c (λ i j, (cell A i j * x)%float).

Definition g_map (r c : nat) (fn : float → float) (A : grid) : grid :=
  tabulate r c (λ i j, fn (cell A i j)).

(** The transpose of an [r]×[c] grid. *)
Definition g_transpose (r c : nat) (A : grid) : grid :=
  tabulate c r (λ j i, cell A i j).

(** The receiver or an argument of a method: its grid is in the store and
    has the dimensions the matrix declares. *)
Definition holds (s : state) (m : Matrix.t) (g : grid) : Prop :=
  heap s !! Matrix.data m = Some g ∧
  grid_shape (Matrix.rows m) (Matrix.cols m) g.

(** ** The network on grid values *)

(** The contents of the four grids of a network. *)
Record weights := Weights {
  W_ih : grid;
  W_ho : grid;
  B_h : grid;
  B_o : grid;
}.

Section network_values.
Context `{Host}.
Import NeuralNetwork.
Variable n : NeuralNetwork.t.
Variable G : weights.

Let i := inputNodes n.
Let h := hiddenNodes n.
Let o := outputNodes n.

(** hidden = sigmoid(weights_ih · input + bias_h) *)
Definition hidden_of (x : list float) : grid :=
  g_map h 1 sigmoid (g_add h 1 (g_mul h i 1 (W_ih G) (col_vector x)) (B_h G)).

(** output = sigmoid(weights_ho · hidden + bias_o) *)
Definition output_of (hidden : grid) : grid :=
  g_map o 1 sigmoid (g_add o 1 (g_mul o h 1 (W_ho G) hidden) (B_o G)).

Definition predict_spec (x : list float) : list float :=
  concat (output_of (hidden_of x)).

(** The seven steps of one training step.  Step 5 is parameterised by
    the hidden-to-output weights the error is propagated through. *)
Section step.
Variables x t : list float.

Let hidden := hidden_of x.
Let outputs := output_of hidden.

(** 2. outputError = target − output *)
Definition output_errors : grid := g_sub o 1 (col_vector t) outputs.

(** 3. outputGradient = output ⊙ (1 − output) ⊙ outputError ⊙ learningRate *)
Definition gradients : grid :=
  g_scale o 1
    (g_hadamard o 1 (g_map o 1 dsigmoid outputs) output_errors)
    (learningRate n).

(** 4. weights_ho += outputGradient · transpose(hidden);
       bias_o += outputGradient *)
Definition new_W_ho : grid :=
  g_add o h (W_ho G) (g_mul o 1 h gradients (g_transpose h 1 hidden)).

Definition new_B_o : grid := g_add o 1 (B_o G) gradients.

(** 5. hiddenError = transpose(W) · outputError *)
Definition hidden_errors (W : grid) : grid :=
  g_mul h o 1 (g_transpose o h W) output_errors.

(** 6. hiddenGradient = hidden ⊙ (1 − hidden) ⊙ hiddenError ⊙ learningRate *)
Definition hidden_gradient (W : grid) : grid :=
  g_scale h 1
    (g_hadamard h 1 (g_map h 1 dsigmoid hidden) (hidden_errors W))
    (learningRate n).

(** 7. weights_ih += hiddenGradient · transpose(input);
       bias_h += hiddenGradient *)
Definition new_W_ih (W : grid) : grid :=
  g_add h i (W_ih G) (g_mul h 1 i (hidden_gradient W) (g_transpose i 1 (col_vector x))).

Definition new_B_h (W : grid) : grid := g_add h 1 (B_h G) (hidden_gradient W).

Definition step_with (W : grid) : weights :=
  Weights (new_W_ih W) new_W_ho (new_B_h W) new_B_o.

(** The step with the hidden error taken through the weights as
    step 4 has just updated them. *)
Definition train_spec : weights := step_with new_W_ho.

(** The step with the hidden error taken through the weights as they
    were when the call began. *)
Definition train_pre_update : weights := step_with (W_ho G).
End step.
End network_values.

(** ** Well-formed networks *)

Section network_invariant.
Import NeuralNetwork.

(** The dimensions the four matrices declare agree with the topology. *)
Definition headers_ok (n : t) : Prop :=
  Matrix.rows (weights_ih n) = hiddenNodes n ∧
  Matrix.cols (weights_ih n) = inputNodes n ∧
  Matrix.rows (weights_ho n) = outputNodes n ∧
  Matrix.cols (weights_ho n) = hiddenNodes n ∧
  Matrix.rows (bias_h n) = hiddenNodes n ∧
  Matrix.cols (bias_h n) = 1 ∧
  Matrix.rows (bias_o n) = outputNodes n ∧
  Matrix.cols (bias_o n) = 1.

(** The shape invariant of the data model: in store [s] the network's
    grids are [G], and each has the shape the topology gives it. *)
Definition shape_invariant (s : state) (n : t) (G : weights) : Prop :=
  headers_ok n ∧
  holds s (weights_ih n) (W_ih G) ∧
  holds s (weights_ho n) (W_ho G) ∧
  holds s (bias_h n) (B_h G) ∧
  holds s (bias_o n) (B_o G).

(** The four grids are four objects. *)
Definition owns_distinct (n : t) : Prop :=
  NoDup [Matrix.data (weights_ih n); Matrix.data (weights_ho n);
         Matrix.data (bias_h n); Matrix.data (bias_o n)].

Definition wf_network (s : state) (n : t) (G : weights) : Prop :=
  shape_invariant s n G ∧ owns_distinct n.

End network_invariant.

(** [s'] is [s] with more grids allocated: every grid of [s] is in [s'],
    at its address, as it was. *)
Definition extends (s s' : state) : Prop :=
  (∃ fresh, heap s' = heap s ++ fresh) ∧ draws s' = draws s.

(** A method body that raises no [Error], whatever the store. *)
Definition raises_no_Error {A} (m : M A) : Prop :=
  ∀ s msg s', m s ≠ (Throw (Error msg), s').

(** The outcome of [predict] on a well-formed network: the forward pass,
    or the error of the first matrix product. *)
Definition predict_outcome `{Host} (n : NeuralNetwork.t) (G : weights)
  (x : list float)
  : outcome (list float) :=
  if decide (length x = NeuralNetwork.inputNodes n) then Ok (predict_spec n G x)
  else Throw (Error "Columns of A must match rows of B for dot product.").

(** The identity matrix of size [n]. *)
Definition identity (n : nat) : grid :=
  tabulate n n (λ i j, if decide (i = j) then 1%float else 0%float).

(** [multiply(transpose(transpose(M)), I)] *)
Definition transpose_twice_times (m i : Matrix.t) : M Matrix.t :=
  let! mt := Matrix.transpose m in
  let! mtt := Matrix.transpose mt in
  Matrix.multiply mtt i.

Definition transpose_twice (m : Matrix.t) : M Matrix.t :=
  let! mt := Matrix.transpose m in
  Matrix.transpose mt.

(** Every entry of row [i] other than entry [j], in the first [c]
    columns, is finite ([Number.isFinite]): neither an infinity nor NaN. *)
Definition finite_neighbours (c : nat) (g : grid) (i j : nat) : bool :=
  forallb (λ k, bool_decide (k = j) || is_finite (cell g i k)) (seq 0 c).

(** What the sum of the product with the identity of size [c] leaves of an
    [r]×[c] grid.  The products by the zeros of the identity are zeros
    when their entries are finite and NaN when they are not; entry (i, j)
    is [0 + g_ij] in the first case, which is [g_ij] but for a negative
    zero, and NaN as soon as one neighbour in its row is not finite. *)
Definition times_identity (r c : nat) (g : grid) : grid :=
  tabulate r c (λ i j,
    if finite_neighbours c g i j then (0 + cell g i j)%float else nan).

(** Finite, read on the specification of a double. *)
Definition sf_is_finite (x : SpecFloat.spec_float) : bool :=
  match x with
  | SpecFloat.S754_zero _ | SpecFloat.S754_finite _ _ _ => true
  | SpecFloat.S754_infinity _ | SpecFloat.S754_nan => false
  end.

(** The grid [randomize] leaves in an [r]×[c] matrix when [d] random
    numbers have been drawn before: the cells are filled row by row, each
    from the next draw. *)
Definition random_grid `{Host} (r c d : nat) : grid :=
  tabulate r c (λ i j, (Math_random (d + i * c + j) * 2 - 1)%float).

(** ** Worked examples: a host

    ECMAScript fixes [Math.exp] at a few arguments only: NaN, the two
    zeros and the two infinities; elsewhere the result is an approximation
    left to the implementation.  The example host tabulates the fixed
    points and answers NaN elsewhere, so that a number computed with it
    that is not NaN was computed from the fixed points alone.  Its
    [Math.random] always returns [0.5], which [randomize] turns into a
    weight of [0]. *)
Definition example_exp (x : float) : float :=
  if PrimFloat.eqb x 0 then 1%float
  else if PrimFloat.eqb x infinity then infinity
  else if PrimFloat.eqb x neg_infinity then 0%float
  else nan.

Definition example_host : Host :=
  {| Math_exp := example_exp; Math_random := λ _, 0.5%float |}.

Definition empty_state : state := State [] 0.

(** ** Worked examples: a network

    A 2-2-1 network built by the constructor under the example host: every
    weight and bias is [0.5 * 2 - 1 = 0]. *)
Definition example_network : NeuralNetwork.t :=
  NeuralNetwork.Make 2 2 1
    (Matrix.Make 2 2 0) (Matrix.Make 1 2 1) (Matrix.Make 2 1 2) (Matrix.Make 1 1 3)
    0.1%float.

Definition example_weights : weights :=
  Weights [[0; 0]; [0; 0]]%float [[0; 0]]%float [[0]; [0]]%float [[0]]%float.

Definition example_state : state :=
  State [W_ih example_weights; W_ho example_weights;
         B_h example_weights; B_o example_weights] 9.

(** * Lemmas *)

(** ** Shapes, cells, tabulation *)

Lemma grid_shape_lookup r c g i row :
  grid_shape r c g → g !! i = Some row → i < r ∧ length row = c.
Proof.
  intros [Hr Hc] Hi. split.
  - rewrite <- Hr. eauto using lookup_lt_Some.
  - rewrite Forall_lookup in Hc. eauto.
Qed.

Lemma grid_shape_row r c g i :
  grid_shape r c g → i < r → ∃ row, g !! i = Some row ∧ length row = c.
Proof.
  intros Hs Hi. destruct (lookup_lt_is_Some_2 g i) as [row Hrow].
  { destruct Hs as [-> _]. done. }
  exists row. split; [done|]. eapply grid_shape_lookup; eauto.
Qed.

Lemma grid_shape_replicate r c x : grid_shape r c (replicate r (replicate c x)).
Proof.
  split; [by rewrite length_replicate|].
  apply Forall_replicate. by rewrite length_replicate.
Qed.

Lemma cell_replicate r c x i j :
  i < r → j < c → cell (replicate r (replicate c x)) i j = x.
Proof.
  intros Hi Hj. unfold cell.
  rewrite lookup_replicate_2 by done. simpl.
  by rewrite lookup_replicate_2.
Qed.

Lemma tabulate_shape r c F : grid_shape r c (tabulate r c F).
Proof.
  unfold tabulate. split.
  - by rewrite length_fmap, length_seq.
  - apply Forall_fmap, Forall_forall. intros i _. simpl.
    by rewrite length_fmap, length_seq.
Qed.

Lemma tabulate_lookup r c F i :
  i < r → tabulate r c F !! i = Some (F i <$> seq 0 c).
Proof.
  intros Hi. unfold tabulate. rewrite list_lookup_fmap.
  by rewrite lookup_seq_lt.
Qed.

Lemma tabulate_cell r c F i j :
  i < r → j < c → cell (tabulate r c F) i j = F i j.
Proof.
  intros Hi Hj. unfold cell. rewrite tabulate_lookup by done. simpl.
  rewrite list_lookup_fmap. by rewrite lookup_seq_lt.
Qed.

(** A grid is determined by its shape and its cells. *)
Lemma grid_ext r c g1 g2 :
  grid_shape r c g1 → grid_shape r c g2 →
  (∀ i j, i < r → j < c → cell g1 i j = cell g2 i j) → g1 = g2.
Proof.
  intros H1 H2 Hcell. apply list_eq. intros i.
  destruct (decide (i < r)) as [Hi|Hi].
  - destruct (grid_shape_row _ _ _ _ H1 Hi) as (r1 & E1 & L1).
    destruct (grid_shape_row _ _ _ _ H2 Hi) as (r2 & E2 & L2).
    rewrite E1, E2. f_equal. apply list_eq. intros j.
    destruct (decide (j < c)) as [Hj|Hj].
    + specialize (Hcell i j Hi Hj). unfold cell in Hcell.
      rewrite E1, E2 in Hcell. simpl in Hcell.
      destruct (lookup_lt_is_Some_2 r1 j) as [x1 X1]; [lia|].
      destruct (lookup_lt_is_Some_2 r2 j) as [x2 X2]; [lia|].
      rewrite X1, X2 in *. simpl in Hcell. by subst.
    + rewrite !lookup_ge_None_2 by lia. done.
  - destruct H1 as [L1 _], H2 as [L2 _].
    rewrite !lookup_ge_None_2 by lia. done.
Qed.

Lemma tabulate_eq r c F g :
  grid_shape r c g → (∀ i j, i < r → j < c → cell g i j = F i j) →
  g = tabulate r c F.
Proof.
  intros Hs Hc. eapply grid_ext; eauto using tabulate_shape.
  intros i j Hi Hj. rewrite tabulate_cell by done. auto.
Qed.

Lemma tabulate_ext r c F G :
  (∀ i j, i < r → j < c → F i j = G i j) → tabulate r c F = tabulate r c G.
Proof.
  intros HFG. apply tabulate_eq; [apply tabulate_shape|].
  intros i j Hi Hj. rewrite tabulate_cell by done. auto.
Qed.

Lemma tabulate_cells r c g : grid_shape r c g → tabulate r c (cell g) = g.
Proof. intros Hs. symmetry. by apply tabulate_eq. Qed.

Lemma grid_set_shape r c i j v g :
  grid_shape r c g → grid_shape r c (grid_set i j v g).
Proof.
  intros [Hr Hc]. unfold grid_set. split.
  - by rewrite length_alter.
  - apply Forall_alter; [done|]. intros row Hrow.
    rewrite length_insert. rewrite Forall_lookup in Hc. eauto.
Qed.

Lemma cell_grid_set r c g i j v i' j' :
  grid_shape r c g → i < r → j < c →
  cell (grid_set i j v g) i' j' =
    if decide (i' = i ∧ j' = j) then v else cell g i' j'.
Proof.
  intros Hs Hi Hj. unfold cell, grid_set.
  destruct (grid_shape_row _ _ _ _ Hs Hi) as (row & Hrow & Hlen).
  destruct (decide (i' = i)) as [->|Hne].
  - rewrite list_lookup_alter_eq, Hrow. simpl.
    destruct (decide (j' = j)) as [->|Hnj].
    + rewrite list_lookup_insert_eq by lia. by rewrite decide_True.
    + rewrite list_lookup_insert_ne by done. rewrite decide_False by tauto. done.
  - rewrite list_lookup_alter_ne by done. rewrite decide_False by tauto. done.
Qed.

(** ** Running method bodies *)

Lemma bind_ok {A B} (m : M A) (k : A → M B) s a s' :
  m s = (Ok a, s') → bind m k s = k a s'.
Proof. unfold bind. by intros ->. Qed.

Lemma bind_throw {A B} (m : M A) (k : A → M B) s e s' :
  m s = (Throw e, s') → bind m k s = (Throw e, s').
Proof. unfold bind. by intros ->. Qed.

(** The loop rule: an invariant that every iteration re-establishes holds
    when the loop ends, and the loop does end normally. *)
Lemma loop_from_inv {A} (I : nat → A → state → Prop) body n :
  ∀ i acc s,
  I i acc s →
  (∀ k a t, i ≤ k < i + n → I k a t →
     ∃ a' t', body k a t = (Ok a', t') ∧ I (S k) a' t') →
  ∃ a' s', loop_from n i body acc s = (Ok a', s') ∧ I (i + n) a' s'.
Proof.
  induction n as [|n IH]; intros i acc s Hinit Hstep; simpl.
  - exists acc, s. rewrite Nat.add_0_r. done.
  - destruct (Hstep i acc s) as (a1 & s1 & Hbody & H1); [lia|done|].
    destruct (IH (S i) a1 s1 H1) as (a2 & s2 & Hloop & H2).
    { intros k a t Hk. apply Hstep. lia. }
    exists a2, s2. rewrite (bind_ok _ _ _ _ _ Hbody).
    replace (i + S n) with (S i + n) by lia. done.
Qed.

Lemma loop_inv {A} (I : nat → A → state → Prop) body n acc s :
  I 0 acc s →
  (∀ k a t, k < n → I k a t →
     ∃ a' t', body k a t = (Ok a', t') ∧ I (S k) a' t') →
  ∃ a' s', loop n body acc s = (Ok a', s') ∧ I n a' s'.
Proof.
  intros H0 Hstep. apply (loop_from_inv I body n 0 acc s H0).
  intros k a t Hk. apply Hstep. lia.
Qed.

(** *** The store *)

Lemma length_alloc g s : length (heap (alloc g s)) = S (length (heap s)).
Proof. simpl. rewrite length_app. simpl. lia. Qed.

Lemma length_store l g s : length (heap (store l g s)) = length (heap s).
Proof. simpl. apply length_insert. Qed.

Lemma heap_alloc_old g s l :
  l < length (heap s) → heap (alloc g s) !! l = heap s !! l.
Proof. intros Hl. simpl. by rewrite lookup_app_l. Qed.

Lemma heap_alloc_new g s : heap (alloc g s) !! length (heap s) = Some g.
Proof. simpl. by rewrite list_lookup_middle. Qed.

Lemma heap_store_eq l g s :
  l < length (heap s) → heap (store l g s) !! l = Some g.
Proof. intros Hl. simpl. by rewrite list_lookup_insert_eq. Qed.

Lemma heap_store_ne l l' g s :
  l ≠ l' → heap (store l g s) !! l' = heap s !! l'.
Proof. intros Hl. simpl. by rewrite list_lookup_insert_ne. Qed.

Lemma store_store l g g' s : store l g (store l g' s) = store l g s.
Proof. unfold store. simpl. by rewrite list_insert_insert_eq. Qed.

Lemma store_id l g s : heap s !! l = Some g → store l g s = s.
Proof. destruct s. unfold store. simpl. intros Hl. by rewrite list_insert_id. Qed.

Lemma store_alloc_new g g' s : store (length (heap s)) g' (alloc g s) = alloc g' s.
Proof.
  unfold store, alloc. simpl. f_equal.
  replace (length (heap s)) with (length (heap s) + 0) at 1 by lia.
  by rewrite insert_app_r.
Qed.

Lemma store_alloc_old l g g' s :
  l < length (heap s) → store l g' (alloc g s) = alloc g (store l g' s).
Proof. intros Hl. unfold store, alloc. simpl. by rewrite insert_app_l. Qed.

Lemma draws_alloc g s : draws (alloc g s) = draws s.
Proof. done. Qed.

Lemma draws_store l g s : draws (store l g s) = draws s.
Proof. done. Qed.

(** *** Cells *)

Lemma read_run r c l i j g s :
  heap s !! l = Some g → grid_shape r c g → i < r → j < c →
  read l i j s = (Ok (cell g i j), s).
Proof.
  intros Hl Hs Hi Hj. unfold read, cell. rewrite Hl.
  destruct (grid_shape_row _ _ _ _ Hs Hi) as (row & -> & _). done.
Qed.

Lemma write_run r c l i j v g s :
  heap s !! l = Some g → grid_shape r c g → i < r → j < c →
  write l i j v s = (Ok tt, store l (grid_set i j v g) s).
Proof.
  intros Hl Hs Hi Hj. unfold write. rewrite Hl.
  destruct (grid_shape_row _ _ _ _ Hs Hi) as (row & Hrow & Hlen).
  rewrite Hrow. do 2 f_equal. unfold grid_set, row_set.
  rewrite decide_True by lia.
  apply list_eq. intros k. destruct (decide (k = i)) as [->|Hk].
  - rewrite list_lookup_alter_eq, Hrow. simpl.
    rewrite list_lookup_insert_eq; [done|]. eauto using lookup_lt_Some.
  - rewrite list_lookup_alter_ne, list_lookup_insert_ne by done. done.
Qed.

(** *** The nested loop as a fill

    [each_cell r c body] where iteration (i, j) overwrites one cell of the
    grid at [l], the cell [tcell] reads and [tset] writes, with [F i j].
    A cell is still as it was at the start when its iteration begins. *)
Section fill.
Variables (r c R C : nat) (l : loc).
Variable tcell : grid → nat → nat → float.
Variable tset : nat → nat → float → grid → grid.
Hypothesis tset_shape : ∀ g i j v,
  grid_shape R C g → i < r → j < c → grid_shape R C (tset i j v g).
Hypothesis tcell_tset : ∀ g i j v i' j',
  grid_shape R C g → i < r → j < c →
  tcell (tset i j v g) i' j' =
    if decide (i' = i ∧ j' = j) then v else tcell g i' j'.

Lemma each_cell_fill_gen (F : nat → nat → float) body s g :
  heap s !! l = Some g → grid_shape R C g →
  (∀ i j g', i < r → j < c → grid_shape R C g' →
     tcell g' i j = tcell g i j →
     body i j (store l g' s) = (Ok tt, store l (tset i j (F i j) g') s)) →
  ∃ g', each_cell r c body s = (Ok tt, store l g' s) ∧ grid_shape R C g' ∧
        ∀ i j, i < r → j < c → tcell g' i j = F i j.
Proof.
  intros Hl Hs Hbody.
  pose (done_at := λ (i j i' j' : nat), i' < i ∨ (i' = i ∧ j' < j)).
  pose (Inv := λ (i j : nat) (t : state),
    ∃ g', t = store l g' s ∧ grid_shape R C g' ∧
      ∀ i' j', i' < r → j' < c →
        tcell g' i' j' =
          if decide (done_at i j i' j') then F i' j' else tcell g i' j').
  destruct (loop_inv (λ i (_ : unit) t, Inv i 0 t)
              (λ i _, loop c (λ j _, body i j) tt) r tt s)
    as ([] & s' & Hrun & g' & -> & Hs' & Hcells).
  - exists g. split; [by rewrite store_id|]. split; [done|].
    intros i' j' _ _. rewrite decide_False; [done|].
    unfold done_at. lia.
  - intros i [] t Hi Ht.
    destruct (loop_inv (λ j (_ : unit) t, Inv i j t)
                (λ j _, body i j) c tt t Ht)
      as ([] & t' & Hrun & g' & -> & Hs' & Hcells).
    + intros j [] u Hj (g1 & -> & Hs1 & Hc1).
      exists tt, (store l (tset i j (F i j) g1) s). split.
      * apply Hbody; try done. rewrite Hc1 by done.
        rewrite decide_False; [done|]. unfold done_at. lia.
      * exists (tset i j (F i j) g1). split; [done|].
        split; [by apply tset_shape|].
        intros i' j' Hi' Hj'. rewrite tcell_tset by done.
        rewrite Hc1 by done. unfold done_at.
        repeat case_decide; try done; try lia.
        destruct_and!. by subst.
    + exists tt, (store l g' s). split; [done|].
      exists g'. split; [done|]. split; [done|].
      intros i' j' Hi' Hj'. rewrite Hcells by done. unfold done_at.
      repeat case_decide; try done; lia.
  - exists g'. split; [done|]. split; [done|].
    intros i j Hi Hj. rewrite Hcells by done.
    rewrite decide_True; [done|]. unfold done_at. lia.
Qed.
End fill.

Lemma each_cell_fill r c l (F : nat → nat → float) body s g :
  heap s !! l = Some g → grid_shape r c g →
  (∀ i j g', i < r → j < c → grid_shape r c g' →
     heap (store l g' s) !! l = Some g' →
     cell g' i j = cell g i j →
     body i j (store l g' s) = (Ok tt, store l (grid_set i j (F i j) g') s)) →
  each_cell r c body s = (Ok tt, store l (tabulate r c F) s).
Proof.
  intros Hl Hs Hbody.
  destruct (each_cell_fill_gen r c r c l cell grid_set) with (F := F)
    (body := body) (s := s) (g := g) as (g' & -> & Hs' & Hc'); try done.
  - intros. by apply grid_set_shape.
  - intros. by eapply cell_grid_set.
  - intros. apply Hbody; try done.
    apply heap_store_eq. eauto using lookup_lt_Some.
  - do 2 f_equal. by apply tabulate_eq.
Qed.

(** The same when iteration (i, j) writes cell (j, i) of a [c]×[r] grid. *)
Lemma each_cell_fill_transposed r c l (F : nat → nat → float) body s g :
  heap s !! l = Some g → grid_shape c r g →
  (∀ i j g', i < r → j < c → grid_shape c r g' →
     heap (store l g' s) !! l = Some g' →
     body i j (store l g' s) = (Ok tt, store l (grid_set j i (F i j) g') s)) →
  each_cell r c body s = (Ok tt, store l (tabulate c r (λ j i, F i j)) s).
Proof.
  intros Hl Hs Hbody.
  destruct (each_cell_fill_gen r c c r l (λ g i j, cell g j i)
              (λ i j, grid_set j i)) with (F := F)
    (body := body) (s := s) (g := g) as (g' & -> & Hs' & Hc'); try done.
  - intros. by apply grid_set_shape.
  - intros g0 i j v i' j' H0 Hi Hj. simpl.
    rewrite (cell_grid_set c r) by done.
    repeat case_decide; try done; tauto.
  - intros. apply Hbody; try done.
    apply heap_store_eq. eauto using lookup_lt_Some.
  - do 2 f_equal. apply tabulate_eq; [done|]. intros j i Hj Hi. by apply Hc'.
Qed.

Lemma dot_sum_S n f : dot_sum (S n) f = (dot_sum n f + f n)%float.
Proof. unfold dot_sum. rewrite seq_S, fold_left_app. done. Qed.

Lemma dot_sum_ext n f g : (∀ k, k < n → f k = g k) → dot_sum n f = dot_sum n g.
Proof.
  induction n as [|n IH]; intros Hfg; [done|].
  rewrite !dot_sum_S, IH, Hfg by (intros; apply Hfg; lia) || lia. done.
Qed.

Lemma col_vector_shape arr : grid_shape (length arr) 1 (col_vector arr).
Proof.
  unfold col_vector. split; [by rewrite length_fmap|].
  apply Forall_fmap, Forall_forall. done.
Qed.

Lemma col_vector_cell arr i : cell (col_vector arr) i 0 = default nan (arr !! i).
Proof.
  unfold cell, col_vector. rewrite list_lookup_fmap.
  by destruct (arr !! i).
Qed.

(** ** What each Matrix method does to a well-shaped grid *)

Lemma holds_lt s m g : holds s m g → Matrix.data m < length (heap s).
Proof. intros [Hl _]. eauto using lookup_lt_Some. Qed.

Lemma heap_fresh_old s z g' a ga :
  heap s !! a = Some ga →
  heap (store (length (heap s)) g' (alloc z s)) !! a = Some ga.
Proof.
  intros Ha. assert (a < length (heap s)) by eauto using lookup_lt_Some.
  rewrite heap_store_ne by lia. by rewrite heap_alloc_old.
Qed.

Lemma read_fresh_run r c s z g' a ga i j :
  heap s !! a = Some ga → grid_shape r c ga → i < r → j < c →
  read a i j (store (length (heap s)) g' (alloc z s)) =
    (Ok (cell ga i j), store (length (heap s)) g' (alloc z s)).
Proof. intros. eapply read_run; eauto using heap_fresh_old. Qed.

Lemma write_fresh_run r c s z g' i j v :
  grid_shape r c g' → i < r → j < c →
  write (length (heap s)) i j v (store (length (heap s)) g' (alloc z s)) =
    (Ok tt, store (length (heap s)) (grid_set i j v g') (alloc z s)).
Proof.
  intros. erewrite write_run; eauto.
  - by rewrite store_store.
  - apply heap_store_eq. rewrite length_alloc. lia.
Qed.

(** Reading an operand while the receiver at [l] is being overwritten: the
    operand may be the receiver itself. *)
Lemma read_store_run r c l g g' s a ga i j :
  heap s !! l = Some g → heap s !! a = Some ga →
  grid_shape r c ga → grid_shape r c g' →
  cell g' i j = cell g i j → i < r → j < c →
  read a i j (store l g' s) = (Ok (cell ga i j), store l g' s).
Proof.
  intros Hl Ha Hsa Hs' Hcell Hi Hj.
  assert (l < length (heap s)) by eauto using lookup_lt_Some.
  destruct (decide (a = l)) as [->|Hne].
  - assert (ga = g) as -> by congruence. rewrite <- Hcell.
    eapply read_run; eauto using heap_store_eq.
  - eapply read_run; eauto. by rewrite heap_store_ne.
Qed.

Lemma write_store_run r c l g' s i j v :
  l < length (heap s) → grid_shape r c g' → i < r → j < c →
  write l i j v (store l g' s) = (Ok tt, store l (grid_set i j v g') s).
Proof.
  intros. erewrite write_run; eauto using heap_store_eq.
  by rewrite store_store.
Qed.

Section matrix_methods.
Import Matrix.

Lemma constructor_run r c s :
  constructor r c s =
    (Ok (Make r c (length (heap s))), alloc (replicate r (replicate c 0%float)) s).
Proof. done. Qed.

Lemma fromArray_run arr s :
  fromArray arr s =
    (Ok (Make (length arr) 1 (length (heap s))), alloc (col_vector arr) s).
Proof.
  unfold fromArray. rewrite (bind_ok _ _ _ _ _ (constructor_run _ _ s)).
  simpl data. set (n := length arr). set (z := replicate n (replicate 1 0%float)).
  destruct (loop_inv (λ i (_ : unit) t,
      ∃ g', t = alloc g' s ∧ grid_shape n 1 g' ∧
        ∀ i', i' < n → cell g' i' 0 =
          if decide (i' < i) then default nan (arr !! i') else 0%float)
    (λ i _, write (length (heap s)) i 0 (default nan (arr !! i))) n tt (alloc z s))
    as ([] & s' & Hrun & g' & -> & Hs' & Hc').
  - exists z. split; [done|]. split; [apply grid_shape_replicate|].
    intros i' Hi'. rewrite decide_False by lia.
    apply cell_replicate; lia.
  - intros i [] t Hi (g' & -> & Hs' & Hc').
    eexists tt, _. split.
    + erewrite (write_run n 1); eauto using heap_alloc_new.
    + rewrite store_alloc_new. eexists. split; [done|].
      split; [by apply grid_set_shape|].
      intros i' Hi'. rewrite (cell_grid_set n 1) by (done || lia).
      rewrite Hc' by done. repeat case_decide; try done; try lia.
      destruct_and!. by subst.
  - rewrite (bind_ok _ _ _ _ _ Hrun). unfold ret. do 3 f_equal.
    eapply grid_ext; eauto using col_vector_shape.
    intros i j Hi Hj. assert (j = 0) as -> by lia.
    rewrite Hc' by done. rewrite decide_True by done.
    by rewrite col_vector_cell.
Qed.

Lemma map_static_run matrix fn s g :
  holds s matrix g →
  Matrix.map matrix fn s =
    (Ok (Make (rows matrix) (cols matrix) (length (heap s))),
     alloc (g_map (rows matrix) (cols matrix) fn g) s).
Proof.
  intros [Hl Hs]. unfold Matrix.map.
  rewrite (bind_ok _ _ _ _ _ (constructor_run _ _ s)). simpl data.
  erewrite bind_ok; [|eapply each_cell_fill with
    (F := λ i j, fn (cell g i j));
    eauto using heap_alloc_new, grid_shape_replicate].
  - unfold ret. by rewrite store_alloc_new.
  - intros i j g' Hi Hj Hs' Hl' _.
    erewrite bind_ok by (eapply read_fresh_run; eauto).
    eapply write_fresh_run; eauto.
Qed.

Lemma subtract_run a b s ga gb :
  holds s a ga → holds s b gb → rows a = rows b → cols a = cols b →
  subtract a b s =
    (Ok (Make (rows a) (cols a) (length (heap s))),
     alloc (g_sub (rows a) (cols a) ga gb) s).
Proof.
  intros [Ha Hsa] [Hb Hsb] Hr Hc. unfold subtract.
  rewrite decide_False by lia. rewrite <- Hr, <- Hc in Hsb.
  rewrite (bind_ok _ _ _ _ _ (constructor_run _ _ s)). simpl.
  erewrite bind_ok; [|eapply each_cell_fill with
    (F := λ i j, (cell ga i j - cell gb i j)%float);
    eauto using heap_alloc_new, grid_shape_replicate].
  - unfold ret. by rewrite store_alloc_new.
  - intros i j g' Hi Hj Hs' Hl' _.
    erewrite bind_ok by (eapply read_fresh_run; eauto).
    erewrite bind_ok by (eapply read_fresh_run; eauto).
    eapply write_fresh_run; eauto.
Qed.

Lemma subtract_throws a b s :
  rows a ≠ rows b ∨ cols a ≠ cols b →
  subtract a b s =
    (Throw (Error "Matrix dimensions must match for subtraction."), s).
Proof. intros H. unfold subtract. by rewrite decide_True. Qed.

Lemma transpose_run matrix s g :
  holds s matrix g →
  transpose matrix s =
    (Ok (Make (cols matrix) (rows matrix) (length (heap s))),
     alloc (g_transpose (rows matrix) (cols matrix) g) s).
Proof.
  intros [Hl Hs]. unfold transpose.
  rewrite (bind_ok _ _ _ _ _ (constructor_run _ _ s)). simpl data.
  erewrite bind_ok; [|eapply each_cell_fill_transposed with
    (F := λ i j, cell g i j);
    eauto using heap_alloc_new, grid_shape_replicate].
  - unfold ret. by rewrite store_alloc_new.
  - intros i j g' Hi Hj Hs' Hl'.
    erewrite bind_ok by (eapply read_fresh_run; eauto).
    eapply write_fresh_run; eauto.
Qed.

Lemma multiply_static_run a b s ga gb :
  holds s a ga → holds s b gb → cols a = rows b →
  Matrix.multiply a b s =
    (Ok (Make (rows a) (cols b) (length (heap s))),
     alloc (g_mul (rows a) (cols a) (cols b) ga gb) s).
Proof.
  intros [Ha Hsa] [Hb Hsb] Hn. unfold Matrix.multiply.
  rewrite decide_False by lia. rewrite <- Hn in Hsb.
  rewrite (bind_ok _ _ _ _ _ (constructor_run _ _ s)). simpl.
  erewrite bind_ok; [|eapply each_cell_fill with
    (F := λ i j, dot_sum (cols a) (λ k, (cell ga i k * cell gb k j)%float));
    eauto using heap_alloc_new, grid_shape_replicate].
  - unfold ret. by rewrite store_alloc_new.
  - intros i j g' Hi Hj Hs' Hl' _.
    set (u := store (length (heap s)) g' _).
    destruct (loop_inv (λ k sum t, t = u ∧
        sum = dot_sum k (λ k, (cell ga i k * cell gb k j)%float))
      (λ k sum, let! x := read (data a) i k in
                let! y := read (data b) k j in
                ret (sum + x * y)%float) (cols a) 0%float u)
      as (sum & u' & Hrun & -> & ->).
    + done.
    + intros k sum t Hk [-> ->]. eexists _, u. split.
      * unfold u.
        erewrite bind_ok by (eapply read_fresh_run; eauto).
        erewrite bind_ok by (eapply read_fresh_run; eauto).
        done.
      * by rewrite dot_sum_S.
    + rewrite (bind_ok _ _ _ _ _ Hrun). eapply write_fresh_run; eauto.
Qed.

Lemma multiply_static_throws a b s :
  cols a ≠ rows b →
  Matrix.multiply a b s =
    (Throw (Error "Columns of A must match rows of B for dot product."), s).
Proof. intros H. unfold Matrix.multiply. by rewrite decide_True. Qed.

End matrix_methods.

Section prototype_methods.
Import Matrix.

Lemma toArray_run this s g :
  holds s this g → MatrixPrototype.toArray this s = (Ok (concat g), s).
Proof.
  intros [Hl Hs]. unfold MatrixPrototype.toArray.
  destruct (loop_inv (λ i arr t, t = s ∧ arr = concat (take i g))
    (λ i arr, loop (cols this) (λ j arr,
       let! x := read (data this) i j in ret (arr ++ [x])) arr)
    (rows this) [] s) as (arr & s' & Hrun & -> & ->).
  - by rewrite take_0.
  - intros i arr t Hi [-> ->].
    destruct (grid_shape_row _ _ _ _ Hs Hi) as (row & Hrow & Hlen).
    destruct (loop_inv (λ j arr t, t = s ∧ arr = concat (take i g) ++ take j row)
      (λ j arr, let! x := read (data this) i j in ret (arr ++ [x]))
      (cols this) (concat (take i g)) s) as (arr & s' & Hrun & -> & ->).
    + by rewrite take_0, app_nil_r.
    + intros j arr t Hj [-> ->].
      destruct (lookup_lt_is_Some_2 row j) as [x Hx]; [lia|].
      eexists _, s. split.
      * erewrite bind_ok by (eapply read_run; eauto). done.
      * split; [done|]. unfold cell. rewrite Hrow. simpl. rewrite Hx. simpl.
        rewrite (take_S_r _ _ _ Hx). by rewrite app_assoc.
    + eexists _, s. split; [done|]. split; [done|].
      rewrite (take_S_r _ _ _ Hrow), concat_app. simpl.
      rewrite app_nil_r. f_equal. apply take_ge. lia.
  - rewrite Hrun. rewrite take_ge; [done|]. destruct Hs as [-> _]. done.
Qed.

Lemma add_run this n s g gn :
  holds s this g → holds s n gn → rows this = rows n → cols this = cols n →
  MatrixPrototype.add this (OfMatrix n) s =
    (Ok this, store (data this) (g_add (rows this) (cols this) g gn) s).
Proof.
  intros [Hl Hs] [Hn Hsn] Hr Hc. unfold MatrixPrototype.add.
  rewrite decide_False by lia. rewrite <- Hr, <- Hc in Hsn.
  assert (data this < length (heap s)) by eauto using lookup_lt_Some.
  erewrite bind_ok; [|eapply each_cell_fill with (l := data this) (g := g)
    (F := λ i j, (cell g i j + cell gn i j)%float); eauto].
  - done.
  - intros i j g' Hi Hj Hs' Hl' Hcell.
    erewrite bind_ok by (eapply (read_store_run _ _ _ g); eauto).
    erewrite bind_ok by (eapply (read_store_run _ _ _ g); eauto).
    eapply write_store_run; eauto.
Qed.

Lemma add_throws this n s :
  rows this ≠ rows n ∨ cols this ≠ cols n →
  MatrixPrototype.add this (OfMatrix n) s =
    (Throw (Error "Matrix dimensions must match for addition."), s).
Proof. intros H. unfold MatrixPrototype.add. by rewrite decide_True. Qed.

Lemma hadamard_run this n s g gn :
  holds s this g → holds s n gn → rows this = rows n → cols this = cols n →
  MatrixPrototype.multiply this (OfMatrix n) s =
    (Ok this, store (data this) (g_hadamard (rows this) (cols this) g gn) s).
Proof.
  intros [Hl Hs] [Hn Hsn] Hr Hc. unfold MatrixPrototype.multiply.
  rewrite decide_False by lia. rewrite <- Hr, <- Hc in Hsn.
  assert (data this < length (heap s)) by eauto using lookup_lt_Some.
  erewrite bind_ok; [|eapply each_cell_fill with (l := data this) (g := g)
    (F := λ i j, (cell g i j * cell gn i j)%float); eauto].
  - done.
  - intros i j g' Hi Hj Hs' Hl' Hcell.
    erewrite bind_ok by (eapply (read_store_run _ _ _ g); eauto).
    erewrite bind_ok by (eapply (read_store_run _ _ _ g); eauto).
    eapply write_store_run; eauto.
Qed.

Lemma hadamard_throws this n s :
  rows this ≠ rows n ∨ cols this ≠ cols n →
  MatrixPrototype.multiply this (OfMatrix n) s =
    (Throw (Error "Matrix dimensions must match for element-wise multiplication."), s).
Proof. intros H. unfold MatrixPrototype.multiply. by rewrite decide_True. Qed.

Lemma scale_run this x s g :
  holds s this g →
  MatrixPrototype.multiply this (OfNumber x) s =
    (Ok this, store (data this) (g_scale (rows this) (cols this) g x) s).
Proof.
  intros [Hl Hs]. unfold MatrixPrototype.multiply.
  assert (data this < length (heap s)) by eauto using lookup_lt_Some.
  erewrite bind_ok; [|eapply each_cell_fill with (l := data this) (g := g)
    (F := λ i j, (cell g i j * x)%float); eauto].
  - done.
  - intros i j g' Hi Hj Hs' Hl' Hcell.
    erewrite bind_ok by (eapply (read_store_run _ _ _ g); eauto).
    eapply write_store_run; eauto.
Qed.

Lemma map_run this fn s g :
  holds s this g →
  MatrixPrototype.map this fn s =
    (Ok this, store (data this) (g_map (rows this) (cols this) fn g) s).
Proof.
  intros [Hl Hs]. unfold MatrixPrototype.map.
  assert (data this < length (heap s)) by eauto using lookup_lt_Some.
  erewrite bind_ok; [|eapply each_cell_fill with (l := data this) (g := g)
    (F := λ i j, fn (cell g i j)); eauto].
  - done.
  - intros i j g' Hi Hj Hs' Hl' Hcell.
    erewrite bind_ok by (eapply (read_store_run _ _ _ g); eauto).
    eapply write_store_run; eauto.
Qed.

(** [randomize] overwrites every cell and keeps the shape. *)
Lemma randomize_run `{Host} this s g :
  holds s this g →
  ∃ g' d, MatrixPrototype.randomize this s =
            (Ok this, State (<[data this := g']> (heap s)) d) ∧
          grid_shape (rows this) (cols this) g'.
Proof.
  intros [Hl Hs]. unfold MatrixPrototype.randomize.
  assert (data this < length (heap s)) by eauto using lookup_lt_Some.
  pose (Inv := λ (t : state), ∃ g' d,
    t = State (<[data this := g']> (heap s)) d ∧
    grid_shape (rows this) (cols this) g').
  destruct (loop_inv (λ _ (_ : unit) t, Inv t)
    (λ i _, loop (cols this) (λ j _,
       let! r := random in write (data this) i j (r * 2 - 1)%float) tt)
    (rows this) tt s) as ([] & s' & Hrun & g' & d & -> & Hs').
  - exists g, (draws s). split; [|done].
    destruct s. simpl in *. by rewrite list_insert_id.
  - intros i [] t Hi Ht.
    destruct (loop_inv (λ _ (_ : unit) t, Inv t)
      (λ j _, let! r := random in write (data this) i j (r * 2 - 1)%float)
      (cols this) tt t Ht) as ([] & t' & Hrun & Ht').
    + intros j [] u Hj (g1 & d1 & -> & Hs1).
      eexists tt, _. split.
      * unfold bind, random. simpl heap. simpl draws.
        erewrite write_run; eauto.
        simpl. by rewrite list_lookup_insert_eq.
      * eexists _, _. unfold store. simpl.
        rewrite list_insert_insert_eq. split; [done|].
        by apply grid_set_shape.
    + by exists tt, t'.
  - exists g', d. split; [|done]. unfold each_cell. by rewrite (bind_ok _ _ _ _ _ Hrun).
Qed.

(** [new Matrix(r, c).randomize()]. *)
Lemma fresh_random_run `{Host} r c s :
  ∃ g d, (let! m := constructor r c in MatrixPrototype.randomize m) s =
           (Ok (Make r c (length (heap s))), State (heap s ++ [g]) d) ∧
         grid_shape r c g.
Proof.
  rewrite (bind_ok _ _ _ _ _ (constructor_run _ _ s)).
  destruct (randomize_run (Make r c (length (heap s)))
              (alloc (replicate r (replicate c 0%float)) s)
              (replicate r (replicate c 0%float))) as (g & d & -> & Hs).
  - split; [apply heap_alloc_new|apply grid_shape_replicate].
  - exists g, d. split; [|done]. simpl. do 3 f_equal.
    replace (length (heap s)) with (length (heap s) + 0) at 1 by lia.
    by rewrite insert_app_r.
Qed.

End prototype_methods.

Lemma extends_refl s : extends s s.
Proof. split; [exists []; by rewrite app_nil_r|done]. Qed.

Lemma extends_alloc s s' g : extends s s' → extends s (alloc g s').
Proof.
  intros [[fresh Hf] Hd]. split; [|by rewrite draws_alloc].
  exists (fresh ++ [g]). simpl. by rewrite Hf, app_assoc.
Qed.

Lemma extends_lookup s s' l g :
  extends s s' → heap s !! l = Some g → heap s' !! l = Some g.
Proof. intros [[fresh ->] _] Hl. by apply lookup_app_l_Some. Qed.

Lemma extends_holds s s' m g : extends s s' → holds s m g → holds s' m g.
Proof. intros He [Hl Hs]. split; eauto using extends_lookup. Qed.

Lemma extends_shape_invariant s s' n G :
  extends s s' → shape_invariant s n G → shape_invariant s' n G.
Proof.
  intros He (Hh & H1 & H2 & H3 & H4).
  unfold shape_invariant. eauto 10 using extends_holds.
Qed.

(** *** Where a matrix is after allocations and updates *)

Lemma holds_fresh s r c g :
  grid_shape r c g → holds (alloc g s) (Matrix.Make r c (length (heap s))) g.
Proof. intros Hs. split; [apply heap_alloc_new|done]. Qed.

Lemma holds_alloc s m g g' : holds s m g → holds (alloc g' s) m g.
Proof.
  intros [Hl Hs]. split; [|done].
  rewrite heap_alloc_old; eauto using lookup_lt_Some.
Qed.

Lemma holds_store_eq s m g g' :
  holds s m g → grid_shape (Matrix.rows m) (Matrix.cols m) g' →
  holds (store (Matrix.data m) g' s) m g'.
Proof.
  intros [Hl _] Hs. split; [|done].
  apply heap_store_eq. eauto using lookup_lt_Some.
Qed.

Lemma holds_store_ne s m g l g' :
  holds s m g → l ≠ Matrix.data m → holds (store l g' s) m g.
Proof. intros [Hl Hs] Hne. split; [|done]. by rewrite heap_store_ne. Qed.

Lemma g_mul_shape r n c A B : grid_shape r c (g_mul r n c A B).
Proof. apply tabulate_shape. Qed.
Lemma g_add_shape r c A B : grid_shape r c (g_add r c A B).
Proof. apply tabulate_shape. Qed.
Lemma g_sub_shape r c A B : grid_shape r c (g_sub r c A B).
Proof. apply tabulate_shape. Qed.
Lemma g_hadamard_shape r c A B : grid_shape r c (g_hadamard r c A B).
Proof. apply tabulate_shape. Qed.
Lemma g_scale_shape r c A x : grid_shape r c (g_scale r c A x).
Proof. apply tabulate_shape. Qed.
Lemma g_map_shape r c f A : grid_shape r c (g_map r c f A).
Proof. apply tabulate_shape. Qed.
Lemma g_transpose_shape r c A : grid_shape c r (g_transpose r c A).
Proof. apply tabulate_shape. Qed.

Create HintDb shapes.
#[export] Hint Resolve g_mul_shape g_add_shape g_sub_shape g_hadamard_shape
  g_scale_shape g_map_shape g_transpose_shape col_vector_shape
  tabulate_shape grid_shape_replicate : shapes.

Lemma NoDup_4 (a b c d : nat) :
  NoDup [a; b; c; d] ↔ a ≠ b ∧ a ≠ c ∧ a ≠ d ∧ b ≠ c ∧ b ≠ d ∧ c ≠ d.
Proof.
  rewrite !NoDup_cons. repeat setoid_rewrite elem_of_cons.
  setoid_rewrite elem_of_nil. pose proof (NoDup_nil_2 (A:=nat)). tauto.
Qed.

Lemma not_elem_of_4 (l a b c d : nat) :
  l ∉ [a; b; c; d] ↔ l ≠ a ∧ l ≠ b ∧ l ≠ c ∧ l ≠ d.
Proof.
  repeat setoid_rewrite elem_of_cons. setoid_rewrite elem_of_nil. tauto.
Qed.

Ltac solve_len :=
  cbn [Matrix.data];
  repeat first [rewrite length_alloc | rewrite length_store]; lia.

Ltac solve_holds :=
  lazymatch goal with
  | |- holds (alloc _ ?s) (Matrix.Make _ _ (length (heap ?s))) _ =>
      apply holds_fresh; eauto with shapes
  | |- holds (alloc _ _) _ _ => apply holds_alloc; solve_holds
  | |- holds (store ?l _ _) (Matrix.Make _ _ ?l) _ =>
      eapply (holds_store_eq _ (Matrix.Make _ _ l));
      [solve_holds | eauto with shapes]
  | |- holds (store _ _ _) _ _ =>
      eapply holds_store_ne; [solve_holds | first [assumption | solve_len]]
  | |- holds _ _ _ => eassumption
  end.

(** One statement of a method body: run it by its lemma, then tidy the
    store. *)
Ltac step lem :=
  erewrite bind_ok by
    (eapply lem; first [solve_holds | done | cbn; congruence | cbn; lia]);
  cbn [Matrix.rows Matrix.cols Matrix.data];
  rewrite ?store_alloc_new.

Section network_methods.
Context `{Host}.
Import NeuralNetwork.

Lemma predict_run n G x s :
  shape_invariant s n G → length x = inputNodes n →
  predict n x s =
    (Ok (predict_spec n G x),
     alloc (output_of n G (hidden_of n G x))
       (alloc (hidden_of n G x) (alloc (col_vector x) s))).
Proof.
  destruct n as [i h o [r1 c1 l1] [r2 c2 l2] [r3 c3 l3] [r4 c4 l4] lr].
  destruct G as [G1 G2 G3 G4].
  intros (Hh & H1 & H2 & H3 & H4) Hx.
  unfold headers_ok in Hh. cbn in Hh, H1, H2, H3, H4, Hx.
  destruct Hh as (-> & -> & -> & -> & -> & -> & -> & ->).
  unfold predict, predict_spec, hidden_of, output_of.
  cbn [inputNodes hiddenNodes outputNodes weights_ih weights_ho bias_h bias_o W_ih W_ho B_h B_o].
  rewrite (bind_ok _ _ _ _ _ (fromArray_run x s)).
  step multiply_static_run.
  step add_run.
  step map_run.
  step multiply_static_run.
  step add_run.
  step map_run.
  erewrite toArray_run by solve_holds. done.
Qed.

(** A wrong-length input is caught by the first matrix product. *)
Lemma predict_throws n x s :
  headers_ok n → length x ≠ inputNodes n →
  predict n x s =
    (Throw (Error "Columns of A must match rows of B for dot product."),
     alloc (col_vector x) s).
Proof.
  intros (_ & Hc & _) Hx. unfold predict.
  rewrite (bind_ok _ _ _ _ _ (fromArray_run x s)).
  erewrite bind_throw; [done|].
  apply multiply_static_throws. cbn. lia.
Qed.

Lemma train_throws_input n x t s :
  headers_ok n → length x ≠ inputNodes n →
  train n x t s =
    (Throw (Error "Columns of A must match rows of B for dot product."),
     alloc (col_vector t) (alloc (col_vector x) s)).
Proof.
  intros (_ & Hc & _) Hx. unfold train.
  rewrite (bind_ok _ _ _ _ _ (fromArray_run x s)).
  rewrite (bind_ok _ _ _ _ _ (fromArray_run t _)).
  erewrite bind_throw; [done|].
  apply multiply_static_throws. cbn. lia.
Qed.

(** A wrong-length target is caught by the subtraction, after the forward
    pass and before the first update. *)
Lemma train_throws_target n G x t s :
  shape_invariant s n G → length x = inputNodes n →
  length t ≠ outputNodes n →
  train n x t s =
    (Throw (Error "Matrix dimensions must match for subtraction."),
     alloc (output_of n G (hidden_of n G x))
       (alloc (hidden_of n G x)
          (alloc (col_vector t) (alloc (col_vector x) s)))).
Proof.
  destruct n as [i h o [r1 c1 l1] [r2 c2 l2] [r3 c3 l3] [r4 c4 l4] lr].
  destruct G as [G1 G2 G3 G4].
  intros (Hh & H1 & H2 & H3 & H4) Hx Ht.
  unfold headers_ok in Hh. cbn in Hh, H1, H2, H3, H4, Hx, Ht.
  destruct Hh as (-> & -> & -> & -> & -> & -> & -> & ->).
  unfold train, hidden_of, output_of.
  cbn [inputNodes hiddenNodes outputNodes weights_ih weights_ho bias_h bias_o
       learningRate W_ih W_ho B_h B_o].
  rewrite (bind_ok _ _ _ _ _ (fromArray_run x s)).
  rewrite (bind_ok _ _ _ _ _ (fromArray_run t _)).
  step multiply_static_run.
  step add_run.
  step map_run.
  step multiply_static_run.
  step add_run.
  step map_run.
  erewrite bind_throw; [done|].
  apply subtract_throws. cbn. lia.
Qed.

Lemma train_run n G x t s :
  wf_network s n G → length x = inputNodes n → length t = outputNodes n →
  ∃ s', train n x t s = (Ok tt, s') ∧
        wf_network s' n (train_spec n G x t) ∧
        draws s' = draws s ∧
        ∀ l g, heap s !! l = Some g →
          l ∉ [Matrix.data (weights_ih n); Matrix.data (weights_ho n);
               Matrix.data (bias_h n); Matrix.data (bias_o n)] →
          heap s' !! l = Some g.
Proof.
  destruct n as [i h o [r1 c1 l1] [r2 c2 l2] [r3 c3 l3] [r4 c4 l4] lr].
  destruct G as [G1 G2 G3 G4].
  intros [(Hh & H1 & H2 & H3 & H4) Hnd] Hx Ht.
  unfold headers_ok in Hh. unfold owns_distinct in Hnd.
  cbn in Hh, H1, H2, H3, H4, Hx, Ht, Hnd.
  destruct Hh as (-> & -> & -> & -> & -> & -> & -> & ->).
  subst i o.
  pose proof Hnd as (N12 & N13 & N14 & N23 & N24 & N34)%NoDup_4.
  pose proof (holds_lt _ _ _ H1) as L1. pose proof (holds_lt _ _ _ H2) as L2.
  pose proof (holds_lt _ _ _ H3) as L3. pose proof (holds_lt _ _ _ H4) as L4.
  cbn in L1, L2, L3, L4.
  unfold train.
  cbn [inputNodes hiddenNodes outputNodes weights_ih weights_ho bias_h bias_o
       learningRate].
  rewrite (bind_ok _ _ _ _ _ (fromArray_run x s)).
  rewrite (bind_ok _ _ _ _ _ (fromArray_run t _)).
  step multiply_static_run.
  step add_run.
  step map_run.
  step multiply_static_run.
  step add_run.
  step map_run.
  step subtract_run.
  step map_static_run.
  step hadamard_run.
  step scale_run.
  step transpose_run.
  step multiply_static_run.
  step add_run.
  step add_run.
  step transpose_run.
  step multiply_static_run.
  step map_static_run.
  step hadamard_run.
  step scale_run.
  step transpose_run.
  step multiply_static_run.
  step add_run.
  step add_run.
  eexists. split; [reflexivity|]. split; [|split].
  - split; [|done]. split; [done|].
    cbn [weights_ih weights_ho bias_h bias_o].
    unfold train_spec, step_with, new_W_ih, new_W_ho, new_B_h, new_B_o,
      hidden_gradient, hidden_errors, gradients, output_errors,
      output_of, hidden_of.
    cbn [inputNodes hiddenNodes outputNodes learningRate
         W_ih W_ho B_h B_o].
    split_and!; solve_holds.
  - done.
  - intros l g Hl Hnot. cbn in Hnot.
    apply not_elem_of_4 in Hnot as (? & ? & ? & ?).
    assert (l < length (heap s)) by eauto using lookup_lt_Some.
    repeat first [ rewrite heap_store_ne by done
                 | rewrite heap_alloc_old by solve_len ].
    done.
Qed.
End network_methods.

Section construction.
Context `{Host}.
Import NeuralNetwork.

(** [new NeuralNetwork(i, h, o)]: four fresh grids of the right shapes,
    one after the other at the end of the store. *)
Lemma network_constructor_run i h o s :
  ∃ g1 g2 g3 g4 d,
    let l := length (heap s) in
    constructor i h o s =
      (Ok (Make i h o (Matrix.Make h i l) (Matrix.Make o h (S l))
             (Matrix.Make h 1 (S (S l))) (Matrix.Make o 1 (S (S (S l))))
             0.1%float),
       State (heap s ++ [g1; g2; g3; g4]) d) ∧
    grid_shape h i g1 ∧ grid_shape o h g2 ∧
    grid_shape h 1 g3 ∧ grid_shape o 1 g4.
Proof.
  unfold constructor.
  destruct (fresh_random_run h i s) as (g1 & d1 & E1 & S1).
  rewrite (bind_ok _ _ _ _ _ E1).
  destruct (fresh_random_run o h (State (heap s ++ [g1]) d1))
    as (g2 & d2 & E2 & S2).
  rewrite (bind_ok _ _ _ _ _ E2).
  destruct (fresh_random_run h 1 (State ((heap s ++ [g1]) ++ [g2]) d2))
    as (g3 & d3 & E3 & S3).
  rewrite (bind_ok _ _ _ _ _ E3).
  destruct (fresh_random_run o 1
              (State (((heap s ++ [g1]) ++ [g2]) ++ [g3]) d3))
    as (g4 & d4 & E4 & S4).
  rewrite (bind_ok _ _ _ _ _ E4).
  exists g1, g2, g3, g4, d4. cbn [heap]. split; [|done].
  unfold ret. rewrite !length_app. cbn [length].
  rewrite <- !app_assoc. cbn [app].
  repeat f_equal; lia.
Qed.

Lemma deserialize_run this d s :
  let z r c := replicate r (replicate c 0%float) in
  let i := SerializedNetwork.inputNodes d in
  let h := SerializedNetwork.hiddenNodes d in
  let o := SerializedNetwork.outputNodes d in
  deserialize this d s =
    (Ok (Make i h o
           (Matrix.Make h i (SerializedNetwork.weights_ih d))
           (Matrix.Make o h (SerializedNetwork.weights_ho d))
           (Matrix.Make h 1 (SerializedNetwork.bias_h d))
           (Matrix.Make o 1 (SerializedNetwork.bias_o d))
           (SerializedNetwork.learningRate d)),
     alloc (z o 1) (alloc (z h 1) (alloc (z o h) (alloc (z h i) s)))).
Proof. done. Qed.
End construction.

(** ** Which exceptions a method body can raise

    The loops read and write cells; a cell access can raise a TypeError
    and nothing else.  An [Error] comes from a dimension check only. *)
Lemma ret_no_Error {A} (a : A) : raises_no_Error (ret a).
Proof. by intros s msg s'. Qed.

Lemma read_no_Error l i j : raises_no_Error (read l i j).
Proof.
  intros s msg s'. unfold read.
  destruct (heap s !! l) as [g|]; [|done]. by destruct (g !! i).
Qed.

Lemma write_no_Error l i j v : raises_no_Error (write l i j v).
Proof.
  intros s msg s'. unfold write.
  destruct (heap s !! l) as [g|]; [|done]. by destruct (g !! i).
Qed.

Lemma random_no_Error `{Host} : raises_no_Error random.
Proof. by intros s msg s'. Qed.

Lemma bind_no_Error {A B} (m : M A) (k : A → M B) :
  raises_no_Error m → (∀ a, raises_no_Error (k a)) →
  raises_no_Error (bind m k).
Proof.
  intros Hm Hk s msg s'. unfold bind.
  destruct (m s) as [[a|e] s1] eqn:E.
  - apply Hk.
  - intros [= -> ->]. by eapply Hm.
Qed.

Lemma loop_from_no_Error {A} (body : nat → A → M A) n :
  (∀ k a, raises_no_Error (body k a)) →
  ∀ i acc, raises_no_Error (loop_from n i body acc).
Proof.
  intros Hbody. induction n as [|n IH]; intros i acc; simpl.
  - apply ret_no_Error.
  - apply bind_no_Error; auto.
Qed.

Lemma each_cell_no_Error r c body :
  (∀ i j, raises_no_Error (body i j)) → raises_no_Error (each_cell r c body).
Proof.
  intros Hbody. unfold each_cell, loop.
  apply loop_from_no_Error. intros i _.
  apply loop_from_no_Error. intros j _. apply Hbody.
Qed.

Ltac solve_no_Error :=
  repeat first
    [ apply each_cell_no_Error; intros
    | apply loop_from_no_Error; intros
    | apply bind_no_Error; [|intros]
    | apply read_no_Error
    | apply write_no_Error
    | apply ret_no_Error ].

Lemma add_Error_unchanged this n s msg s' :
  MatrixPrototype.add this n s = (Throw (Error msg), s') → s' = s.
Proof.
  unfold MatrixPrototype.add. destruct n as [n|x].
  - case_decide.
    + by intros [= _ ->].
    + intros E. exfalso. revert E. by solve_no_Error.
  - intros E. exfalso. revert E. by solve_no_Error.
Qed.

Lemma hadamard_Error_unchanged this n s msg s' :
  MatrixPrototype.multiply this n s = (Throw (Error msg), s') → s' = s.
Proof.
  unfold MatrixPrototype.multiply. destruct n as [n|x].
  - case_decide.
    + by intros [= _ ->].
    + intros E. exfalso. revert E. by solve_no_Error.
  - intros E. exfalso. revert E. by solve_no_Error.
Qed.

Lemma constructor_no_Error r c : raises_no_Error (Matrix.constructor r c).
Proof. by intros s msg s'. Qed.

Lemma subtract_Error_unchanged a b s msg s' :
  Matrix.subtract a b s = (Throw (Error msg), s') → s' = s.
Proof.
  unfold Matrix.subtract. case_decide.
  - by intros [= _ ->].
  - intros E. exfalso. revert E.
    apply bind_no_Error; [apply constructor_no_Error|intros].
    by solve_no_Error.
Qed.

Lemma multiply_Error_unchanged a b s msg s' :
  Matrix.multiply a b s = (Throw (Error msg), s') → s' = s.
Proof.
  unfold Matrix.multiply. case_decide.
  - by intros [= _ ->].
  - intros E. exfalso. revert E.
    apply bind_no_Error; [apply constructor_no_Error|intros].
    by solve_no_Error.
Qed.

(** ** The outcome of [predict] and [train] on a well-formed network *)

Section totals.
Context `{Host}.
Import NeuralNetwork.

Lemma shape_invariant_headers s n G : shape_invariant s n G → headers_ok n.
Proof. by intros [? _]. Qed.

Lemma predict_total n G x s :
  shape_invariant s n G →
  ∃ s', predict n x s = (predict_outcome n G x, s') ∧ extends s s'.
Proof.
  intros Hn. unfold predict_outcome. case_decide as Hx.
  - eexists. split; [by apply predict_run|].
    eauto using extends_alloc, extends_refl.
  - eexists. split; [eapply predict_throws; eauto using shape_invariant_headers|].
    eauto using extends_alloc, extends_refl.
Qed.

(** [train] either completes, or raises before its first update. *)
Lemma train_total n G x t s :
  wf_network s n G →
  (length x = inputNodes n ∧ length t = outputNodes n ∧
   ∃ s', train n x t s = (Ok tt, s') ∧
         wf_network s' n (train_spec n G x t)) ∨
  ((length x ≠ inputNodes n ∨ length t ≠ outputNodes n) ∧
   ∃ msg s', train n x t s = (Throw (Error msg), s') ∧ extends s s').
Proof.
  intros Hn.
  destruct (decide (length x = inputNodes n)) as [Hx|Hx];
    [destruct (decide (length t = outputNodes n)) as [Ht|Ht]|].
  - left. split; [done|]. split; [done|].
    destruct (train_run n G x t s) as (s' & E & Hwf & _); eauto.
  - right. split; [by right|]. eexists _, _. split.
    + eapply train_throws_target; eauto. apply Hn.
    + eauto using extends_alloc, extends_refl.
  - right. split; [by left|]. eexists _, _. split.
    + eapply train_throws_input; eauto. apply Hn.
    + eauto using extends_alloc, extends_refl.
Qed.
End totals.

Lemma example_constructed :
  NeuralNetwork.constructor (H := example_host) 2 2 1 empty_state =
    (Ok example_network, example_state).
Proof. vm_compute. reflexivity. Qed.

Lemma example_shape_invariant :
  shape_invariant example_state example_network example_weights.
Proof.
  split; [by repeat split|].
  repeat split; try reflexivity; repeat constructor.
Defined.

Lemma example_wf : wf_network example_state example_network example_weights.
Proof.
  split; [apply example_shape_invariant|].
  apply NoDup_4. cbn. lia.
Defined.

(** * The claims *)

Section claims.
Import NeuralNetwork.

(** ** C1: the hidden-layer error goes through the updated weights_ho *)

(** C1. In every [train(input, target)] call on a well-formed network,
    the grids found in the store afterwards are those of the seven
    steps with the hidden-layer error computed as
    [transpose(weights_ho) · outputError] through the [weights_ho] that
    step 4 has already incremented: the new [weights_ih] and [bias_h]
    are built from the new [weights_ho], not from the one the call
    began with.  On the example network the two differ: the call leaves
    [7.8125e-05] in every cell of [weights_ih], where the pre-update
    weights would have left [0]. *)
Theorem train_hidden_error_uses_updated_weights :
  (∀ (H : Host) n G x t s,
     wf_network s n G →
     length x = inputNodes n → length t = outputNodes n →
     ∃ s' G',
       train n x t s = (Ok tt, s') ∧ shape_invariant s' n G' ∧
       W_ho G' = new_W_ho n G x t ∧
       B_o G' = new_B_o n G x t ∧
       W_ih G' = new_W_ih n G x t (W_ho G') ∧
       B_h G' = new_B_h n G x t (W_ho G') ∧
       hidden_errors n G x t (W_ho G') =
         g_mul (hiddenNodes n) (outputNodes n) 1
           (g_transpose (outputNodes n) (hiddenNodes n) (W_ho G'))
           (output_errors n G x t)) ∧
  heap (train (H := example_host) example_network
          [1; 1]%float [1]%float example_state).2
    !! Matrix.data (weights_ih example_network) =
    Some [[7.8125000000000015e-05; 7.8125000000000015e-05];
          [7.8125000000000015e-05; 7.8125000000000015e-05]]%float ∧
  W_ih (train_pre_update (H := example_host) example_network example_weights
          [1; 1]%float [1]%float) =
    [[0; 0]; [0; 0]]%float.
Proof.
  split; [|split; vm_compute; reflexivity].
  intros H n G x t s Hn Hx Ht.
  destruct (train_run n G x t s Hn Hx Ht) as (s' & E & [Hs' _] & _).
  exists s', (train_spec n G x t).
  split; [exact E|]. split; [exact Hs'|]. by repeat split.
Qed.

Lemma train_hidden_error_uses_updated_weights_witness :
  ∃ s' G',
    train (H := example_host) example_network [1; 1]%float [1]%float
      example_state = (Ok tt, s') ∧
    shape_invariant s' example_network G' ∧
    W_ih G' =
      new_W_ih (H := example_host) example_network example_weights
        [1; 1]%float [1]%float (W_ho G').
Proof.
  destruct (proj1 train_hidden_error_uses_updated_weights example_host
              example_network example_weights [1; 1]%float [1]%float
              example_state example_wf eq_refl eq_refl)
    as (s' & G' & E & HS & _ & _ & HW & _).
  exists s', G'. exact (conj E (conj HS HW)).
Defined.

(** ** C2: what a snapshot shares with the network *)

(** C2 as stated fails.  The snapshot taken from the example network
    reads [[0; 0]] for weights_ho; after one [train] call on the network
    the same snapshot reads [[0.00625; 0.00625]]. *)
Lemma serialize_snapshot_follows_train :
  heap example_state
    !! SerializedNetwork.weights_ho (serialize example_network) =
    Some [[0; 0]]%float ∧
  (train (H := example_host) example_network [1; 1]%float [1]%float
     example_state).1 = Ok tt ∧
  heap (train (H := example_host) example_network [1; 1]%float [1]%float
          example_state).2
    !! SerializedNetwork.weights_ho (serialize example_network) =
    Some [[0.00625; 0.00625]]%float.
Proof. repeat split; vm_compute; reflexivity. Qed.

(** C2, amended.  [serialize()] copies the three topology integers and
    learningRate into the snapshot and takes the four grids by
    reference: the snapshot's grids are the live matrices' own, so after
    a later [train] call the snapshot reads the updated weights.  The
    numbers in the snapshot are values and stay as they were. *)
Theorem serialize_shares_grids :
  ∀ (H : Host) n G x t s,
    wf_network s n G →
    length x = inputNodes n → length t = outputNodes n →
    (SerializedNetwork.inputNodes (serialize n) = inputNodes n ∧
     SerializedNetwork.hiddenNodes (serialize n) = hiddenNodes n ∧
     SerializedNetwork.outputNodes (serialize n) = outputNodes n ∧
     SerializedNetwork.learningRate (serialize n) = learningRate n) ∧
    (SerializedNetwork.weights_ih (serialize n) = Matrix.data (weights_ih n) ∧
     SerializedNetwork.weights_ho (serialize n) = Matrix.data (weights_ho n) ∧
     SerializedNetwork.bias_h (serialize n) = Matrix.data (bias_h n) ∧
     SerializedNetwork.bias_o (serialize n) = Matrix.data (bias_o n)) ∧
    ∃ s',
      train n x t s = (Ok tt, s') ∧
      heap s' !! SerializedNetwork.weights_ih (serialize n) =
        Some (W_ih (train_spec n G x t)) ∧
      heap s' !! SerializedNetwork.weights_ho (serialize n) =
        Some (W_ho (train_spec n G x t)) ∧
      heap s' !! SerializedNetwork.bias_h (serialize n) =
        Some (B_h (train_spec n G x t)) ∧
      heap s' !! SerializedNetwork.bias_o (serialize n) =
        Some (B_o (train_spec n G x t)).
Proof.
  intros H n G x t s Hn Hx Ht. split; [done|]. split; [done|].
  destruct (train_run n G x t s Hn Hx Ht)
    as (s' & E & [(_ & H1 & H2 & H3 & H4) _] & _).
  exists s'. split; [done|]. cbn.
  repeat split; first [apply H1|apply H2|apply H3|apply H4].
Qed.

Lemma serialize_shares_grids_witness :
  ∃ s',
    train (H := example_host) example_network [1; 1]%float [1]%float
      example_state = (Ok tt, s') ∧
    heap s' !! SerializedNetwork.weights_ho (serialize example_network) =
      Some (W_ho (train_spec (H := example_host) example_network
                    example_weights [1; 1]%float [1]%float)).
Proof.
  destruct (serialize_shares_grids example_host example_network
              example_weights [1; 1]%float [1]%float example_state
              example_wf eq_refl eq_refl)
    as (_ & _ & s' & E & _ & HW & _).
  exists s'. exact (conj E HW).
Defined.

(** ** C3: the round trip *)

Lemma shape_invariant_deserialized m n G s :
  shape_invariant s n G →
  ∃ n' s1, deserialize m (serialize n) s = (Ok n', s1) ∧
           extends s s1 ∧ shape_invariant s1 n' G ∧
           inputNodes n' = inputNodes n ∧ hiddenNodes n' = hiddenNodes n ∧
           outputNodes n' = outputNodes n ∧ learningRate n' = learningRate n.
Proof.
  intros Hn. eexists _, _. split; [apply deserialize_run|].
  assert (extends s (alloc (replicate (outputNodes n) (replicate 1 0%float))
    (alloc (replicate (hiddenNodes n) (replicate 1 0%float))
    (alloc (replicate (outputNodes n) (replicate (hiddenNodes n) 0%float))
    (alloc (replicate (hiddenNodes n) (replicate (inputNodes n) 0%float)) s)))))
    as He by eauto using extends_alloc, extends_refl.
  split; [exact He|]. split; [|done].
  apply (extends_shape_invariant _ _ _ _ He) in Hn.
  destruct Hn as (Hh & (L1 & S1) & (L2 & S2) & (L3 & S3) & (L4 & S4)).
  destruct Hh as (E1 & E2 & E3 & E4 & E5 & E6 & E7 & E8).
  rewrite E1, E2 in S1. rewrite E3, E4 in S2.
  rewrite E5, E6 in S3. rewrite E7, E8 in S4.
  unfold shape_invariant, headers_ok, holds. cbn.
  split_and!; first [reflexivity | assumption].
Qed.

(** C3. For every network [n] whose matrices declare the dimensions of
    its topology (every network the constructor or [deserialize] has
    built), [deserialize(serialize(n))] applied to any network [m] yields
    a network whose learningRate is [n]'s and whose [predict] does on
    every input what [n]'s does in the same store.  When the grids of [n]
    are well-shaped, that outcome is the one [n] gave before the round
    trip: for an input of length [n.inputNodes], the output vector of the
    forward pass. *)
Theorem deserialize_serialize_round_trip :
  ∀ (H : Host) n m s,
    headers_ok n →
    ∃ n' s1,
      deserialize m (serialize n) s = (Ok n', s1) ∧
      learningRate n' = learningRate n ∧
      (∀ x, predict n' x s1 = predict n x s1) ∧
      (∀ G x,
         shape_invariant s n G →
         (predict n' x s1).1 = (predict n x s).1 ∧
         (length x = inputNodes n →
          (predict n' x s1).1 = Ok (predict_spec n G x))).
Proof.
  intros H n m s Hh. eexists _, _. split; [apply deserialize_run|].
  cbn zeta.
  split; [done|]. split.
  - intros x.
    destruct n as [i h o [r1 c1 l1] [r2 c2 l2] [r3 c3 l3] [r4 c4 l4] lr].
    unfold headers_ok in Hh. cbn in Hh.
    destruct Hh as (-> & -> & -> & -> & -> & -> & -> & ->). reflexivity.
  - intros G x Hn.
    destruct (shape_invariant_deserialized m n G s Hn)
      as (n' & s1 & E & He & Hn' & Ei & Eh & Eo & El).
    rewrite deserialize_run in E. cbn zeta in E. injection E as <- <-.
    destruct (predict_total _ G x _ Hn') as (s2 & E2 & _).
    destruct (predict_total n G x s Hn) as (s3 & E3 & _).
    rewrite E3. split; [exact (f_equal fst E2)|].
    intros Hx. etrans; [exact (f_equal fst E2)|].
    cbn. unfold predict_outcome. by rewrite decide_True.
Qed.

Lemma deserialize_serialize_round_trip_witness :
  ∃ n' s1,
    deserialize example_network (serialize example_network) example_state =
      (Ok n', s1) ∧
    (predict (H := example_host) n' [1; 1]%float s1).1 =
      (predict (H := example_host) example_network [1; 1]%float
         example_state).1.
Proof.
  destruct (deserialize_serialize_round_trip example_host example_network
              example_network example_state
              (shape_invariant_headers _ _ _ example_shape_invariant))
    as (n' & s1 & E & _ & _ & Hp).
  exists n', s1.
  exact (conj E (proj1 (Hp example_weights [1; 1]%float
                          example_shape_invariant))).
Defined.

(** ** C4: what predict computes *)

Lemma concat_tabulate_col r F :
  concat (tabulate r 1 F) = (λ i, F i 0) <$> seq 0 r.
Proof.
  unfold tabulate. generalize (seq 0 r) as l.
  induction l as [|i l IH]; [done|]. cbn. f_equal. apply IH.
Qed.

Lemma predict_spec_length `{Host} n G x :
  length (predict_spec n G x) = outputNodes n.
Proof.
  unfold predict_spec, output_of, g_map.
  by rewrite concat_tabulate_col, length_fmap, length_seq.
Qed.

Lemma predict_spec_lookup `{Host} n G x k :
  k < outputNodes n →
  predict_spec n G x !! k =
    Some (sigmoid
            (dot_sum (hiddenNodes n)
               (λ j, cell (W_ho G) k j * cell (hidden_of n G x) j 0) +
             cell (B_o G) k 0))%float.
Proof.
  intros Hk. unfold predict_spec, output_of, g_map.
  rewrite concat_tabulate_col, list_lookup_fmap, lookup_seq_lt by done.
  cbn. unfold g_add. rewrite tabulate_cell by (done || lia).
  unfold g_mul. by rewrite tabulate_cell by (done || lia).
Qed.

Lemma hidden_of_cell `{Host} n G x j :
  j < hiddenNodes n →
  cell (hidden_of n G x) j 0 =
    sigmoid
      (dot_sum (inputNodes n)
         (λ m, cell (W_ih G) j m * cell (col_vector x) m 0) +
       cell (B_h G) j 0)%float.
Proof.
  intros Hj. unfold hidden_of, g_map.
  rewrite tabulate_cell by (done || lia).
  unfold g_add. rewrite tabulate_cell by (done || lia).
  unfold g_mul. by rewrite tabulate_cell by (done || lia).
Qed.

(** C4. For every well-formed network and every input vector of length
    inputNodes, [predict] returns the flat vector of length outputNodes
    given by output = sigmoid(weights_ho · hidden + bias_o), where
    hidden = sigmoid(weights_ih · input + bias_h): entry [k] of the
    result is the sigmoid of the sum [0 + w_k0 * hidden_0 + w_k1 *
    hidden_1 + ...] plus the bias, with [sigmoid x = 1 / (1 + e^-x)]. *)
Theorem predict_computes_forward_pass :
  ∀ (H : Host) n G x s,
    shape_invariant s n G → length x = inputNodes n →
    (predict n x s).1 = Ok (predict_spec n G x) ∧
    predict_spec n G x = concat (output_of n G (hidden_of n G x)) ∧
    length (predict_spec n G x) = outputNodes n ∧
    (∀ k, k < outputNodes n →
       predict_spec n G x !! k =
         Some (sigmoid
                 (dot_sum (hiddenNodes n)
                    (λ j, cell (W_ho G) k j * cell (hidden_of n G x) j 0) +
                  cell (B_o G) k 0))%float) ∧
    (∀ j, j < hiddenNodes n →
       cell (hidden_of n G x) j 0 =
         sigmoid
           (dot_sum (inputNodes n)
              (λ m, cell (W_ih G) j m * default nan (x !! m)) +
            cell (B_h G) j 0)%float) ∧
    (∀ y, sigmoid y = 1 / (1 + Math_exp (- y)))%float.
Proof.
  intros H n G x s Hn Hx.
  split; [by rewrite (predict_run n G x s Hn Hx)|].
  split; [done|]. split; [apply predict_spec_length|].
  split; [intros; by apply predict_spec_lookup|].
  split; [|done]. intros j Hj. rewrite hidden_of_cell by done.
  do 2 f_equal. apply dot_sum_ext. intros m _.
  by rewrite col_vector_cell.
Qed.

Lemma predict_computes_forward_pass_witness :
  (predict (H := example_host) example_network [1; 1]%float example_state).1 =
    Ok (predict_spec (H := example_host) example_network example_weights
          [1; 1]%float).
Proof.
  exact (proj1 (predict_computes_forward_pass example_host example_network
                  example_weights [1; 1]%float example_state
                  example_shape_invariant eq_refl)).
Defined.

(** ** C5: predict changes nothing *)

(** C5. [predict] is pure with respect to model state.  The call leaves
    every grid that was in the store where it was and as it was, so the
    network's four grids still read [G]; it assigns no field of the
    network (it receives the object and returns the output only); and a
    second call with the same input returns the same outcome. *)
Theorem predict_is_pure :
  ∀ (H : Host) n G x s r s',
    shape_invariant s n G →
    predict n x s = (r, s') →
    extends s s' ∧ shape_invariant s' n G ∧ (predict n x s').1 = r.
Proof.
  intros H n G x s r s' Hn E.
  destruct (predict_total n G x s Hn) as (s1 & E1 & He).
  rewrite E in E1. injection E1 as -> ->.
  split; [done|].
  assert (shape_invariant s1 n G) as Hn1
    by eauto using extends_shape_invariant.
  split; [done|].
  by destruct (predict_total n G x s1 Hn1) as (s2 & -> & _).
Qed.

Lemma predict_is_pure_witness :
  (predict (H := example_host) example_network [1; 1]%float
     (predict (H := example_host) example_network [1; 1]%float
        example_state).2).1 =
  (predict (H := example_host) example_network [1; 1]%float example_state).1.
Proof.
  exact (proj2 (proj2 (predict_is_pure example_host example_network
                         example_weights [1; 1]%float example_state _ _
                         example_shape_invariant
                         (surjective_pairing _)))).
Defined.

(** ** C6: a wrong-length input *)

(** C6.  The code has one class of errors, [Error], which it raises
    with a message when a size check fails: the ShapeMismatch and the
    DimensionMismatch of the specification are both [Error]s.  For every
    network whose matrices declare the dimensions of its topology and
    every input vector whose length differs from inputNodes,
    [predict(input)] fails with an [Error]: the one the product
    [weights_ih · input] raises on its size check, the first thing
    [predict] does once the input is a column vector, which is then the
    only new grid of the store: every grid that was there is as it was.
    And the static [multiply(A, B)] with A.cols ≠ B.rows fails with that
    [Error], leaving the store as it was. *)
Theorem predict_wrong_length_fails :
  (∀ (H : Host) n x s,
     headers_ok n → length x ≠ inputNodes n →
     predict n x s =
       (Throw (Error "Columns of A must match rows of B for dot product."),
        alloc (col_vector x) s) ∧
     (∀ l g, heap s !! l = Some g → heap (predict n x s).2 !! l = Some g)) ∧
  (∀ a b s,
     Matrix.cols a ≠ Matrix.rows b →
     Matrix.multiply a b s =
       (Throw (Error "Columns of A must match rows of B for dot product."),
        s)).
Proof.
  split.
  - intros H n x s Hh Hx.
    rewrite (predict_throws n x s Hh Hx). split; [done|].
    intros l g Hl. cbn [snd].
    eapply extends_lookup; [|exact Hl]. apply extends_alloc, extends_refl.
  - intros a b s Hab. by apply multiply_static_throws.
Qed.

(** [predict([0, 0, 0])] on the example network, whose inputNodes is 2. *)
Lemma predict_wrong_length_fails_witness :
  predict (H := example_host) example_network [0; 0; 0]%float example_state =
    (Throw (Error "Columns of A must match rows of B for dot product."),
     alloc [[0]; [0]; [0]]%float example_state).
Proof.
  apply (proj1 predict_wrong_length_fails example_host example_network
           [0; 0; 0]%float example_state).
  - apply example_shape_invariant.
  - cbn. lia.
Defined.

(** ** C7: nothing is half-updated by a failed call *)

(** C7. No core operation is partial on a shape or dimension error.
    When [add], the element-wise [multiply], [subtract] or the matrix
    product raises an [Error], the store is exactly as it was.  When
    [predict] or [train] on a well-formed network raises, every grid
    that was in the store before the call, the network's four among
    them, is where it was and as it was: the checks that can fail come
    before the first update.  In particular [train] with a wrong-length
    target raises and leaves the network unchanged. *)
Theorem failed_operations_change_nothing :
  (∀ this n s msg s',
     MatrixPrototype.add this n s = (Throw (Error msg), s') → s' = s) ∧
  (∀ this n s msg s',
     MatrixPrototype.multiply this n s = (Throw (Error msg), s') → s' = s) ∧
  (∀ a b s msg s',
     Matrix.subtract a b s = (Throw (Error msg), s') → s' = s) ∧
  (∀ a b s msg s',
     Matrix.multiply a b s = (Throw (Error msg), s') → s' = s) ∧
  (∀ (H : Host) n G x s e s',
     shape_invariant s n G → predict n x s = (Throw e, s') →
     extends s s' ∧ shape_invariant s' n G) ∧
  (∀ (H : Host) n G x t s e s',
     wf_network s n G → train n x t s = (Throw e, s') →
     extends s s' ∧ wf_network s' n G) ∧
  (∀ (H : Host) n G x t s,
     wf_network s n G → length t ≠ outputNodes n →
     ∃ msg s', train n x t s = (Throw (Error msg), s') ∧
               extends s s' ∧ wf_network s' n G).
Proof.
  split_and!.
  - apply add_Error_unchanged.
  - apply hadamard_Error_unchanged.
  - apply subtract_Error_unchanged.
  - apply multiply_Error_unchanged.
  - intros H n G x s e s' Hn E.
    destruct (predict_total n G x s Hn) as (s1 & E1 & He).
    rewrite E in E1. injection E1 as _ ->.
    eauto using extends_shape_invariant.
  - intros H n G x t s e s' Hn E.
    destruct (train_total n G x t s Hn)
      as [(_ & _ & s1 & E1 & _)|(_ & msg & s1 & E1 & He)];
      rewrite E in E1; [done|]. injection E1 as _ ->.
    split; [done|]. destruct Hn as [Hn Hd].
    split; eauto using extends_shape_invariant.
  - intros H n G x t s Hn Ht.
    destruct (train_total n G x t s Hn)
      as [(_ & Ht' & _)|(_ & msg & s1 & E1 & He)]; [done|].
    exists msg, s1. split; [done|]. split; [done|].
    destruct Hn as [Hn Hd].
    split; eauto using extends_shape_invariant.
Qed.

Lemma failed_operations_change_nothing_witness :
  ∃ msg s',
    train (H := example_host) example_network [1; 1]%float [1; 0]%float
      example_state = (Throw (Error msg), s') ∧
    extends example_state s' ∧
    wf_network s' example_network example_weights.
Proof.
  apply (proj2 (proj2 (proj2 (proj2 (proj2 (proj2
           failed_operations_change_nothing)))))
           example_host example_network example_weights).
  - apply example_wf.
  - cbn. lia.
Defined.

(** ** C8: the shape invariant *)

(** C8. For every construction [NeuralNetwork(inputNodes, hiddenNodes,
    outputNodes)] with all three positive, the shape invariant holds:
    weights_ih is hiddenNodes×inputNodes, weights_ho is
    outputNodes×hiddenNodes, bias_h is hiddenNodes×1, bias_o is
    outputNodes×1, each matrix with a grid of its own; learningRate is
    0.1 whatever the topology; and every [train] call that completes
    preserves the invariant. *)
Theorem constructor_and_train_keep_shape_invariant :
  (∀ (H : Host) i h o s,
     0 < i → 0 < h → 0 < o →
     ∃ n s' G,
       constructor i h o s = (Ok n, s') ∧
       inputNodes n = i ∧ hiddenNodes n = h ∧ outputNodes n = o ∧
       wf_network s' n G ∧
       grid_shape h i (W_ih G) ∧ grid_shape o h (W_ho G) ∧
       grid_shape h 1 (B_h G) ∧ grid_shape o 1 (B_o G) ∧
       learningRate n = 0.1%float) ∧
  (∀ (H : Host) n G x t s s',
     wf_network s n G → train n x t s = (Ok tt, s') →
     ∃ G', wf_network s' n G').
Proof.
  split.
  - intros H i h o s _ _ _.
    destruct (network_constructor_run i h o s)
      as (g1 & g2 & g3 & g4 & d & E & S1 & S2 & S3 & S4).
    cbn zeta in E. eexists _, _, (Weights g1 g2 g3 g4).
    split; [exact E|]. cbn.
    split_and!; try done.
    unfold wf_network, shape_invariant, headers_ok, holds, owns_distinct.
    cbn. split_and!; try done.
    + rewrite lookup_app_r by lia. by rewrite Nat.sub_diag.
    + rewrite lookup_app_r by lia.
      by replace (S (length (heap s)) - length (heap s)) with 1 by lia.
    + rewrite lookup_app_r by lia.
      by replace (S (S (length (heap s))) - length (heap s)) with 2 by lia.
    + rewrite lookup_app_r by lia.
      by replace (S (S (S (length (heap s)))) - length (heap s)) with 3 by lia.
    + apply NoDup_4. lia.
  - intros H n G x t s s' Hn E.
    destruct (train_total n G x t s Hn)
      as [(_ & _ & s1 & E1 & Hn1)|(_ & msg & s1 & E1 & _)];
      rewrite E in E1; [|done].
    injection E1 as ->. eauto.
Qed.

Lemma constructor_and_train_keep_shape_invariant_witness :
  ∃ n s' G,
    constructor (H := example_host) 2 2 1 empty_state = (Ok n, s') ∧
    inputNodes n = 2 ∧ hiddenNodes n = 2 ∧ outputNodes n = 1 ∧
    wf_network s' n G ∧
    grid_shape 2 2 (W_ih G) ∧ grid_shape 1 2 (W_ho G) ∧
    grid_shape 2 1 (B_h G) ∧ grid_shape 1 1 (B_o G) ∧
    learningRate n = 0.1%float.
Proof.
  apply (proj1 constructor_and_train_keep_shape_invariant example_host
           2 2 1 empty_state); lia.
Defined.

(** ** C9: deserialize installs the snapshot's own grids *)






(** ** C10: transposing twice, and the product with the identity *)

Lemma g_transpose_involutive r c g :
  grid_shape r c g → g_transpose c r (g_transpose r c g) = g.
Proof.
  intros Hs. unfold g_transpose at 1. symmetry. apply tabulate_eq; [done|].
  intros i j Hi Hj. unfold g_transpose. by rewrite tabulate_cell.
Qed.

(** *** Doubles: products by one and by zero, sums with a zero

    What the sum of the product with the identity needs of IEEE
    arithmetic, from the specification of the primitive operations. *)

Section doubles.
Import SpecFloat FloatOps FloatAxioms.

(** Rounding [m * 2^52] at exponent [e - 52] gives back [m] at [e]. *)
Lemma round_times_one s m e :
  bounded prec emax m e = true →
  binary_round_aux prec emax s (Zpos (m * 4503599627370496)) (e + -52)
    loc_Exact = S754_finite s m e.
Proof.
  intros Hb. unfold bounded, canonical_mantissa in Hb.
  apply andb_true_iff in Hb as [Hc He].
  apply Z.eqb_eq in Hc.
  rewrite Pos.mul_comm.
  unfold binary_round_aux, shr_fexp.
  cbn [Zdigits2 shr_record_of_loc].
  set (p := (4503599627370496 * m)%positive).
  assert ((Z.pos (digits2_pos p) + (e + -52) = Z.pos (digits2_pos m) + e)%Z)
    as Hd.
  { subst p. cbv [Pos.mul digits2_pos]. fold (digits2_pos m). lia. }
  rewrite Hd, Hc.
  replace (e - (e + -52))%Z with 52%Z by lia.
  cbv [shr].
  assert (SpecFloat.iter_pos shr_1 52
            {| shr_m := Z.pos p; shr_r := false; shr_s := false |} =
          {| shr_m := Z.pos m; shr_r := false; shr_s := false |}) as Hi.
  { subst p. cbv [Pos.mul]. cbv [SpecFloat.iter_pos shr_1 orb]. reflexivity. }
  rewrite Hi. cbn [shr_m loc_of_shr_record round_nearest_even Zdigits2].
  replace (e + -52 + 52)%Z with e by lia.
  rewrite Hc, Z.sub_diag. cbn [shr shr_m]. by rewrite He.
Qed.

Lemma float_mul_1_r x : (x * 1 = x)%float.
Proof.
  apply Prim2SF_inj. rewrite mul_spec.
  change (Prim2SF 1) with (S754_finite false 4503599627370496 (-52)).
  pose proof (Prim2SF_valid x) as Hv.
  destruct (Prim2SF x) as [s|s| |s m e]; unfold SF64mul, SFmul.
  - by destruct s.
  - by destruct s.
  - done.
  - rewrite xorb_false_r. by apply round_times_one.
Qed.

Lemma is_finite_spec x : is_finite x = sf_is_finite (Prim2SF x).
Proof.
  unfold is_finite, is_nan, is_infinity.
  rewrite !eqb_spec, abs_spec.
  change (Prim2SF infinity) with (S754_infinity false).
  destruct (Prim2SF x) as [s|s| |s m e].
  - done.
  - by destruct s.
  - done.
  - unfold SFeqb, SFabs, SFcompare.
    rewrite Z.compare_refl.
    fold (Pos.compare m m). rewrite Pos.compare_refl.
    by destruct s.
Qed.

Lemma SF2Prim_eq x X : Prim2SF x = X → x = SF2Prim X.
Proof. intros <-. by rewrite SF2Prim_Prim2SF. Qed.

Lemma float_mul_0_finite x :
  is_finite x = true → (x * 0)%float = 0%float ∨ (x * 0)%float = neg_zero.
Proof.
  rewrite is_finite_spec. intros Hf.
  pose proof (mul_spec x 0) as Hm.
  change (Prim2SF 0) with (S754_zero false) in Hm.
  destruct (Prim2SF x) as [s|s| |s m e]; try done;
    apply SF2Prim_eq in Hm; rewrite Hm; destruct s; auto.
Qed.

Lemma float_mul_0_not_finite x :
  is_finite x = false → (x * 0)%float = nan.
Proof.
  rewrite is_finite_spec. intros Hf.
  pose proof (mul_spec x 0) as Hm.
  change (Prim2SF 0) with (S754_zero false) in Hm.
  destruct (Prim2SF x) as [s|s| |s m e]; try done;
    apply SF2Prim_eq in Hm; by rewrite Hm.
Qed.

Lemma float_add_neg_zero_r y : (y + neg_zero)%float = y.
Proof.
  apply Prim2SF_inj. rewrite add_spec.
  change (Prim2SF neg_zero) with (S754_zero true).
  by destruct (Prim2SF y) as [[]|[]| |s m e].
Qed.

Lemma float_add_0_r y : y ≠ neg_zero → (y + 0)%float = y.
Proof.
  intros Hy. apply Prim2SF_inj. rewrite add_spec.
  change (Prim2SF 0) with (S754_zero false).
  destruct (Prim2SF y) as [[]|[]| |s m e] eqn:E; try done.
  destruct Hy. by apply Prim2SF_inj.
Qed.

Lemma float_add_0_l x : x ≠ neg_zero → (0 + x)%float = x.
Proof.
  intros Hx. apply Prim2SF_inj. rewrite add_spec.
  change (Prim2SF 0) with (S754_zero false).
  destruct (Prim2SF x) as [[]|[]| |s m e] eqn:E; try done.
  destruct Hx. by apply Prim2SF_inj.
Qed.

Lemma float_add_0_l_not_neg_zero x : (0 + x)%float ≠ neg_zero.
Proof.
  intros Hx. apply (f_equal Prim2SF) in Hx. rewrite add_spec in Hx.
  change (Prim2SF 0) with (S754_zero false) in Hx.
  change (Prim2SF neg_zero) with (S754_zero true) in Hx.
  by destruct (Prim2SF x) as [[]|[]| |s m e].
Qed.

Lemma float_add_nan_l y : (nan + y)%float = nan.
Proof.
  apply Prim2SF_inj. rewrite add_spec.
  by change (Prim2SF nan) with S754_nan.
Qed.

Lemma float_add_nan_r y : (y + nan)%float = nan.
Proof.
  apply Prim2SF_inj. rewrite add_spec.
  change (Prim2SF nan) with S754_nan.
  by destruct (Prim2SF y) as [[]|[]| |s m e].
Qed.

End doubles.

(** A sum that is [0], [0 + x] or NaN is not the negative zero, so that
    a zero of either sign adds nothing to it. *)
Lemma float_add_signed_zero y z :
  y ≠ neg_zero → z = 0%float ∨ z = neg_zero → (y + z)%float = y.
Proof.
  intros Hy [->| ->]; [by apply float_add_0_r|apply float_add_neg_zero_r].
Qed.

Lemma finite_neighbours_S n g i j :
  finite_neighbours (S n) g i j =
    finite_neighbours n g i j &&
    (bool_decide (n = j) || is_finite (cell g i n)).
Proof.
  unfold finite_neighbours. rewrite seq_S, forallb_app. cbn.
  by rewrite andb_true_r.
Qed.

Lemma finite_neighbours_true c g i j :
  finite_neighbours c g i j = true ↔
  ∀ k, k < c → k ≠ j → is_finite (cell g i k) = true.
Proof.
  unfold finite_neighbours. rewrite forallb_forall. split.
  - intros Hall k Hk Hne.
    specialize (Hall k (proj2 (in_seq _ _ _) (conj (Nat.le_0_l _) Hk))).
    apply orb_true_iff in Hall as [Heq|Hf]; [|done].
    by apply bool_decide_eq_true in Heq.
  - intros Hall k [_ Hk]%in_seq. apply orb_true_iff.
    destruct (decide (k = j)) as [->|Hne].
    + left. by apply bool_decide_eq_true.
    + right. apply Hall; [lia|done].
Qed.

Lemma finite_neighbours_false c g i j k :
  k < c → k ≠ j → is_finite (cell g i k) = false →
  finite_neighbours c g i j = false.
Proof.
  intros Hk Hne Hf. apply not_true_is_false. intros Hall.
  rewrite finite_neighbours_true in Hall.
  rewrite (Hall k Hk Hne) in Hf. done.
Qed.

(** The sum of row [i] of [g] against column [j] of the identity, after
    [n] terms. *)
Lemma dot_sum_identity c g i j :
  j < c →
  ∀ n, n ≤ c →
    dot_sum n (λ k, cell g i k * cell (identity c) k j)%float =
      if finite_neighbours n g i j
      then if decide (j < n) then (0 + cell g i j)%float else 0%float
      else nan.
Proof.
  intros Hj. induction n as [|n IH]; intros Hn.
  - by rewrite decide_False by lia.
  - rewrite dot_sum_S, IH, finite_neighbours_S by lia. unfold identity.
    rewrite tabulate_cell by lia.
    destruct (finite_neighbours n g i j); cbn [andb];
      [|by rewrite float_add_nan_l].
    destruct (decide (n = j)) as [->|Hne].
    + rewrite bool_decide_eq_true_2 by done. cbn [orb].
      rewrite decide_False, decide_True by lia.
      by rewrite float_mul_1_r.
    + rewrite bool_decide_eq_false_2 by done. cbn [orb].
      destruct (is_finite (cell g i n)) eqn:Hf.
      * apply float_mul_0_finite in Hf.
        destruct (decide (j < n)).
        -- rewrite decide_True by lia.
           apply float_add_signed_zero;
             [apply float_add_0_l_not_neg_zero|done].
        -- rewrite decide_False by lia.
           by apply float_add_signed_zero.
      * rewrite (float_mul_0_not_finite _ Hf). apply float_add_nan_r.
Qed.

Lemma g_mul_identity r c g :
  g_mul r c c g (identity c) = times_identity r c g.
Proof.
  apply tabulate_ext. intros i j Hi Hj.
  rewrite (dot_sum_identity c g i j Hj c) by done.
  by rewrite decide_True.
Qed.

(** C10 as stated fails.  For the 1×2 matrix [[∞, 1]] and the 2×2
    identity, [multiply(transpose(transpose(M)), I)] is [[∞, NaN]]:
    the second entry is [0 + ∞ * 0 + 1 * 1]. *)
Lemma product_with_identity_of_infinity :
  (let! p := transpose_twice_times (Matrix.Make 1 2 0) (Matrix.Make 2 2 1) in
   MatrixPrototype.toArray p)
    (State [[[infinity; 1]]; [[1; 0]; [0; 1]]]%float 0) =
  (Ok [infinity; nan],
   State [[[infinity; 1]]; [[1; 0]; [0; 1]];
          [[infinity]; [1]]; [[infinity; 1]]; [[infinity; nan]]]%float 0) ∧
  identity 2 = [[1; 0]; [0; 1]]%float.
Proof. split; vm_compute; reflexivity. Qed.

(** C10, amended.  Transposition is involutive: for every matrix [M]
    whose grid has the shape it declares, [transpose(transpose(M))] is a
    new matrix of the dimensions of [M] with the entries of [M].  And
    [multiply(transpose(transpose(M)), I)], for [I] the identity of
    size M.cols, is a new matrix of the dimensions of [M] whose entry
    (a, b) is

    - [0 + M_ab] when every other entry of row [a] is finite: that is
      [M_ab] itself, an infinity or NaN too, except that a negative zero
      comes back as the positive zero;
    - NaN when some other entry of row [a] is an infinity or NaN.

    So the product is [M] when every entry of [M] is finite and none is
    the negative zero. *)
Theorem transpose_involutive_and_identity_product :
  (∀ m g s,
     holds s m g →
     ∃ mtt s',
       transpose_twice m s = (Ok mtt, s') ∧ extends s s' ∧
       Matrix.rows mtt = Matrix.rows m ∧ Matrix.cols mtt = Matrix.cols m ∧
       holds s' mtt g) ∧
  (∀ m i g s,
     holds s m g →
     holds s i (identity (Matrix.cols m)) →
     Matrix.rows i = Matrix.cols m → Matrix.cols i = Matrix.cols m →
     ∃ p gp s',
       transpose_twice_times m i s = (Ok p, s') ∧ extends s s' ∧
       Matrix.rows p = Matrix.rows m ∧ Matrix.cols p = Matrix.cols m ∧
       holds s' p gp ∧
       (∀ a b, a < Matrix.rows m → b < Matrix.cols m →
          ((∀ k, k < Matrix.cols m → k ≠ b →
              is_finite (cell g a k) = true) →
           cell gp a b = (0 + cell g a b)%float ∧
           (cell g a b ≠ neg_zero → cell gp a b = cell g a b) ∧
           (cell g a b = neg_zero → cell gp a b = 0%float)) ∧
          (∀ k, k < Matrix.cols m → k ≠ b →
             is_finite (cell g a k) = false → cell gp a b = nan)) ∧
       ((∀ a b, a < Matrix.rows m → b < Matrix.cols m →
           is_finite (cell g a b) = true ∧ cell g a b ≠ neg_zero) →
        gp = g)).
Proof.
  split.
  - intros [r c l] g s Hm. unfold transpose_twice.
    pose proof Hm as [_ Hs]. cbn in Hs.
    step transpose_run. eexists _, _.
    split; [eapply transpose_run; solve_holds|].
    split; [eauto using extends_alloc, extends_refl|].
    cbn [Matrix.rows Matrix.cols Matrix.data]. split; [done|]. split; [done|].
    rewrite g_transpose_involutive by done. by apply holds_fresh.
  - intros [r c l] [ri ci li] g s Hm Hi Hri Hci.
    unfold transpose_twice_times.
    pose proof Hm as [_ Hs]. cbn in Hs, Hri, Hci, Hi. subst ri ci.
    step transpose_run. step transpose_run.
    eexists _, (times_identity r c g), _.
    split.
    { erewrite multiply_static_run; [|solve_holds|solve_holds|done].
      cbn [Matrix.rows Matrix.cols Matrix.data].
      by rewrite g_transpose_involutive, g_mul_identity by done. }
    split; [eauto using extends_alloc, extends_refl|].
    cbn [Matrix.rows Matrix.cols Matrix.data]. split; [done|]. split; [done|].
    split; [apply holds_fresh, tabulate_shape|].
    assert (∀ a b, a < r → b < c →
              (∀ k, k < c → k ≠ b → is_finite (cell g a k) = true) →
              cell (times_identity r c g) a b = (0 + cell g a b)%float)
      as Hfin.
    { intros a b Ha Hb Hall. unfold times_identity.
      rewrite tabulate_cell by done.
      by rewrite (proj2 (finite_neighbours_true c g a b) Hall). }
    split.
    + intros a b Ha Hb. split.
      * intros Hall. rewrite (Hfin a b Ha Hb Hall).
        split; [done|]. split.
        -- apply float_add_0_l.
        -- by intros ->.
      * intros k Hk Hne Hf. unfold times_identity.
        rewrite tabulate_cell by done.
        by rewrite (finite_neighbours_false c g a b k Hk Hne Hf).
    + intros Hall. apply (grid_ext r c); [apply tabulate_shape|done|].
      intros a b Ha Hb. rewrite Hfin by (try done; intros; by apply Hall).
      apply float_add_0_l. by apply Hall.
Qed.

Lemma transpose_involutive_and_identity_product_witness :
  ∃ p s',
    transpose_twice_times (Matrix.Make 2 2 0) (Matrix.Make 2 2 1)
      (State [[[1; 2]; [3; 4]]; identity 2]%float 0) = (Ok p, s') ∧
    holds s' p [[1; 2]; [3; 4]]%float.
Proof.
  destruct (proj2 transpose_involutive_and_identity_product
              (Matrix.Make 2 2 0) (Matrix.Make 2 2 1)
              [[1; 2]; [3; 4]]%float
              (State [[[1; 2]; [3; 4]]; identity 2]%float 0))
    as (p & gp & s' & E & _ & _ & _ & Hp & _ & Hg).
  - split; [reflexivity|]. split; [reflexivity|by repeat constructor].
  - split; [reflexivity|apply tabulate_shape].
  - reflexivity.
  - reflexivity.
  - exists p, s'. split; [exact E|].
    rewrite <- Hg; [exact Hp|].
    intros a b Ha Hb.
    destruct a as [|[|a]]; [| |cbn in Ha; lia];
      (destruct b as [|[|b]]; [| |cbn in Hb; lia]);
      (split; [reflexivity|]);
      intros E0; apply (f_equal (PrimFloat.ltb 0)) in E0; by vm_compute in E0.
Defined.

End claims.

(** * Further properties of the code *)

(** ** Matrix: vectors in and out *)

Lemma concat_col_vector arr : concat (col_vector arr) = arr.
Proof. induction arr as [|x arr IH]; [done|]. cbn. f_equal. exact IH. Qed.

Lemma concat_uniform_length c (g : grid) :
  Forall (λ row, length row = c) g → length (concat g) = length g * c.
Proof.
  induction 1 as [|row g Hrow _ IH]; [done|].
  cbn. rewrite length_app, IH, Hrow. done.
Qed.

Lemma concat_uniform_lookup c (g : grid) :
  Forall (λ row, length row = c) g →
  ∀ i row j, g !! i = Some row → j < c →
    concat g !! (i * c + j) = row !! j.
Proof.
  induction 1 as [|row0 g Hrow0 _ IH]; intros i row j Hi Hj; [done|].
  destruct i as [|i]; cbn in *.
  - injection Hi as ->. rewrite lookup_app_l by lia. done.
  - rewrite lookup_app_r by lia.
    replace (c + i * c + j - length row0) with (i * c + j) by lia.
    by eapply IH.
Qed.

(** X1. [Matrix.fromArray(arr).toArray()] returns [arr], for every array
    (the empty one too); the call allocates the column vector of [arr]
    and changes nothing else. *)
Theorem fromArray_toArray_round_trip :
  ∀ arr s,
    (let! m := Matrix.fromArray arr in MatrixPrototype.toArray m) s =
      (Ok arr, alloc (col_vector arr) s).
Proof.
  intros arr s. rewrite (bind_ok _ _ _ _ _ (fromArray_run arr s)).
  erewrite toArray_run by (apply holds_fresh, col_vector_shape).
  by rewrite concat_col_vector.
Qed.

(** X2. On a matrix whose grid has the shape it declares, [toArray]
    returns the entries row by row: [rows * cols] of them, entry (i, j) at
    index [i * cols + j]; the store is read only. *)
Theorem toArray_is_row_major :
  ∀ this g s,
    holds s this g →
    ∃ arr,
      MatrixPrototype.toArray this s = (Ok arr, s) ∧
      length arr = Matrix.rows this * Matrix.cols this ∧
      ∀ i j, i < Matrix.rows this → j < Matrix.cols this →
        arr !! (i * Matrix.cols this + j) = Some (cell g i j).
Proof.
  intros this g s Hm. exists (concat g). split; [by apply toArray_run|].
  destruct Hm as [_ [Hr Hc]]. split.
  - by rewrite (concat_uniform_length _ _ Hc), Hr.
  - intros i j Hi Hj.
    destruct (lookup_lt_is_Some_2 g i) as [row Hrow]; [lia|].
    rewrite (concat_uniform_lookup _ _ Hc i row j Hrow Hj).
    unfold cell. rewrite Hrow. cbn.
    destruct (lookup_lt_is_Some_2 row j) as [x ->]; [|done].
    rewrite Forall_lookup in Hc. by rewrite (Hc _ _ Hrow).
Qed.

Lemma toArray_is_row_major_witness :
  ∃ arr,
    MatrixPrototype.toArray (Matrix.Make 2 2 0) example_state =
      (Ok arr, example_state) ∧
    length arr = 4.
Proof.
  destruct (toArray_is_row_major (Matrix.Make 2 2 0) (W_ih example_weights)
              example_state)
    as (arr & E & L & _).
  - split; [reflexivity|]. split; [reflexivity|by repeat constructor].
  - exists arr. exact (conj E L).
Defined.

(** X3. [Matrix.transpose(Matrix.fromArray(arr))] is the 1×n row vector
    holding [arr], for every array of every length n: the way [train]
    forms [hidden_t] and [inputs_t]. *)
Theorem transpose_of_fromArray :
  ∀ arr s,
    (let! m := Matrix.fromArray arr in Matrix.transpose m) s =
      (Ok (Matrix.Make 1 (length arr) (S (length (heap s)))),
       alloc [arr] (alloc (col_vector arr) s)).
Proof.
  intros arr s. rewrite (bind_ok _ _ _ _ _ (fromArray_run arr s)).
  erewrite transpose_run by (apply holds_fresh, col_vector_shape).
  cbn [Matrix.rows Matrix.cols]. rewrite length_alloc. do 3 f_equal.
  unfold g_transpose, tabulate. cbn. f_equal.
  apply list_eq. intros i. rewrite list_lookup_fmap.
  destruct (decide (i < length arr)) as [Hi|Hi].
  - rewrite lookup_seq_lt by done. cbn. rewrite col_vector_cell.
    by destruct (lookup_lt_is_Some_2 arr i) as [x ->].
  - rewrite lookup_seq_ge by lia. by rewrite lookup_ge_None_2 by lia.
Qed.

(** ** Matrix: element-wise operations *)

(** X4. [Matrix.subtract(a, b)] on two matrices of the same declared
    dimensions returns a new matrix of those dimensions whose entry (i, j)
    is [a_ij - b_ij] and leaves the grids of [a] and [b], like every
    other grid, as they were; when the dimensions differ it raises its
    error and the store is untouched. *)
Theorem subtract_is_entrywise :
  (∀ a b ga gb s,
     holds s a ga → holds s b gb →
     Matrix.rows a = Matrix.rows b → Matrix.cols a = Matrix.cols b →
     ∃ result g s',
       Matrix.subtract a b s = (Ok result, s') ∧ extends s s' ∧
       Matrix.rows result = Matrix.rows a ∧
       Matrix.cols result = Matrix.cols a ∧
       holds s' result g ∧ holds s' a ga ∧ holds s' b gb ∧
       ∀ i j, i < Matrix.rows a → j < Matrix.cols a →
         cell g i j = (cell ga i j - cell gb i j)%float) ∧
  (∀ a b s,
     Matrix.rows a ≠ Matrix.rows b ∨ Matrix.cols a ≠ Matrix.cols b →
     Matrix.subtract a b s =
       (Throw (Error "Matrix dimensions must match for subtraction."), s)).
Proof.
  split; [|apply subtract_throws].
  intros a b ga gb s Ha Hb Hr Hc. eexists _, _, _.
  split; [by eapply subtract_run|].
  split; [eauto using extends_alloc, extends_refl|].
  split; [done|]. split; [done|].
  split; [apply holds_fresh, g_sub_shape|].
  split; [by apply holds_alloc|]. split; [by apply holds_alloc|].
  intros i j Hi Hj. unfold g_sub. by rewrite tabulate_cell.
Qed.

Lemma subtract_is_entrywise_witness :
  ∃ result g s',
    Matrix.subtract (Matrix.Make 2 1 2) (Matrix.Make 2 1 2) example_state =
      (Ok result, s') ∧
    holds s' result g.
Proof.
  destruct (proj1 subtract_is_entrywise (Matrix.Make 2 1 2) (Matrix.Make 2 1 2)
              (B_h example_weights) (B_h example_weights) example_state)
    as (result & g & s' & E & _ & _ & _ & Hg & _).
  - split; [reflexivity|]. split; [reflexivity|by repeat constructor].
  - split; [reflexivity|]. split; [reflexivity|by repeat constructor].
  - reflexivity.
  - reflexivity.
  - exists result, g, s'. exact (conj E Hg).
Defined.

Lemma add_scalar_run this x s g :
  holds s this g →
  MatrixPrototype.add this (OfNumber x) s =
    (Ok this,
     store (Matrix.data this)
       (tabulate (Matrix.rows this) (Matrix.cols this)
          (λ i j, (cell g i j + x)%float)) s).
Proof.
  intros [Hl Hs]. unfold MatrixPrototype.add.
  assert (Matrix.data this < length (heap s)) by eauto using lookup_lt_Some.
  erewrite bind_ok; [|eapply each_cell_fill with (l := Matrix.data this) (g := g)
    (F := λ i j, (cell g i j + x)%float); eauto].
  - done.
  - intros i j g' Hi Hj Hs' Hl' Hcell.
    erewrite bind_ok by (eapply (read_store_run _ _ _ g); eauto).
    eapply write_store_run; eauto.
Qed.

(** X5. With a number for argument, [add] and the instance [multiply]
    have no dimension check and never raise an [Error]; on a matrix whose
    grid has the shape it declares they complete, return the receiver and
    replace every entry [x] in place by [x + n], respectively [x * n],
    leaving every other grid as it was. *)
Theorem scalar_operations_are_entrywise :
  (∀ this x s msg s',
     MatrixPrototype.add this (OfNumber x) s ≠ (Throw (Error msg), s') ∧
     MatrixPrototype.multiply this (OfNumber x) s ≠ (Throw (Error msg), s')) ∧
  (∀ this x g s,
     holds s this g →
     ∃ g1 g2,
       MatrixPrototype.add this (OfNumber x) s =
         (Ok this, store (Matrix.data this) g1 s) ∧
       MatrixPrototype.multiply this (OfNumber x) s =
         (Ok this, store (Matrix.data this) g2 s) ∧
       grid_shape (Matrix.rows this) (Matrix.cols this) g1 ∧
       grid_shape (Matrix.rows this) (Matrix.cols this) g2 ∧
       ∀ i j, i < Matrix.rows this → j < Matrix.cols this →
         cell g1 i j = (cell g i j + x)%float ∧
         cell g2 i j = (cell g i j * x)%float).
Proof.
  split.
  - intros this x s msg s'. split.
    + unfold MatrixPrototype.add. by solve_no_Error.
    + unfold MatrixPrototype.multiply. by solve_no_Error.
  - intros this x g s Hm. eexists _, _.
    split; [by apply add_scalar_run|]. split; [by apply scale_run|].
    split; [apply tabulate_shape|]. split; [apply g_scale_shape|].
    intros i j Hi Hj. unfold g_scale. by rewrite !tabulate_cell.
Qed.

Lemma scalar_operations_are_entrywise_witness :
  ∃ g1,
    MatrixPrototype.add (Matrix.Make 1 2 1) (OfNumber 3%float) example_state =
      (Ok (Matrix.Make 1 2 1), store 1 g1 example_state) ∧
    cell g1 0 1 = (cell (W_ho example_weights) 0 1 + 3)%float.
Proof.
  destruct (proj2 scalar_operations_are_entrywise (Matrix.Make 1 2 1)
              3%float (W_ho example_weights) example_state)
    as (g1 & g2 & E & _ & _ & _ & Hc).
  - split; [reflexivity|]. split; [reflexivity|by repeat constructor].
  - exists g1. refine (conj E (proj1 (Hc 0 1 _ _))); cbn; lia.
Defined.

(** X6. The two [map]s compute the same entries, [fn] of each entry of
    the matrix: the instance method writes them over the receiver's grid,
    the static one into a new matrix and leaves its argument as it was.
    Neither can fail on a matrix whose grid has the shape it declares. *)
Theorem map_instance_and_static_agree :
  ∀ m fn g s,
    holds s m g →
    ∃ g',
      MatrixPrototype.map m fn s = (Ok m, store (Matrix.data m) g' s) ∧
      Matrix.map m fn s =
        (Ok (Matrix.Make (Matrix.rows m) (Matrix.cols m) (length (heap s))),
         alloc g' s) ∧
      grid_shape (Matrix.rows m) (Matrix.cols m) g' ∧
      holds (alloc g' s) m g ∧
      ∀ i j, i < Matrix.rows m → j < Matrix.cols m →
        cell g' i j = fn (cell g i j).
Proof.
  intros m fn g s Hm. exists (g_map (Matrix.rows m) (Matrix.cols m) fn g).
  split; [by apply map_run|]. split; [by apply map_static_run|].
  split; [apply g_map_shape|]. split; [by apply holds_alloc|].
  intros i j Hi Hj. unfold g_map. by rewrite tabulate_cell.
Qed.

Lemma map_instance_and_static_agree_witness :
  ∃ g',
    MatrixPrototype.map (Matrix.Make 2 2 0) dsigmoid example_state =
      (Ok (Matrix.Make 2 2 0), store 0 g' example_state) ∧
    Matrix.map (Matrix.Make 2 2 0) dsigmoid example_state =
      (Ok (Matrix.Make 2 2 4), alloc g' example_state).
Proof.
  destruct (map_instance_and_static_agree (Matrix.Make 2 2 0) dsigmoid
              (W_ih example_weights) example_state)
    as (g' & E1 & E2 & _).
  - split; [reflexivity|]. split; [reflexivity|by repeat constructor].
  - exists g'. exact (conj E1 E2).
Defined.

(** X7. A matrix can be its own argument: [m.add(m)] doubles every entry
    and [m.multiply(m)] squares it, each cell being read before it is
    written. *)
Theorem add_and_multiply_on_self :
  ∀ m g s,
    holds s m g →
    ∃ g1 g2,
      MatrixPrototype.add m (OfMatrix m) s =
        (Ok m, store (Matrix.data m) g1 s) ∧
      MatrixPrototype.multiply m (OfMatrix m) s =
        (Ok m, store (Matrix.data m) g2 s) ∧
      ∀ i j, i < Matrix.rows m → j < Matrix.cols m →
        cell g1 i j = (cell g i j + cell g i j)%float ∧
        cell g2 i j = (cell g i j * cell g i j)%float.
Proof.
  intros m g s Hm. eexists _, _.
  split; [by apply add_run|]. split; [by apply hadamard_run|].
  intros i j Hi Hj. unfold g_add, g_hadamard. by rewrite !tabulate_cell.
Qed.

Lemma add_and_multiply_on_self_witness :
  ∃ g1 g2,
    MatrixPrototype.add (Matrix.Make 1 2 1) (OfMatrix (Matrix.Make 1 2 1))
      example_state = (Ok (Matrix.Make 1 2 1), store 1 g1 example_state) ∧
    MatrixPrototype.multiply (Matrix.Make 1 2 1)
      (OfMatrix (Matrix.Make 1 2 1)) example_state =
      (Ok (Matrix.Make 1 2 1), store 1 g2 example_state).
Proof.
  destruct (add_and_multiply_on_self (Matrix.Make 1 2 1)
              (W_ho example_weights) example_state)
    as (g1 & g2 & E1 & E2 & _).
  - split; [reflexivity|]. split; [reflexivity|by repeat constructor].
  - exists g1, g2. exact (conj E1 E2).
Defined.

(** ** Random initialisation *)

Lemma randomize_exact `{Host} this s g :
  holds s this g →
  MatrixPrototype.randomize this s =
    (Ok this,
     State (<[Matrix.data this :=
               random_grid (Matrix.rows this) (Matrix.cols this) (draws s)]>
              (heap s))
           (draws s + Matrix.rows this * Matrix.cols this)).
Proof.
  intros [Hl Hs]. unfold MatrixPrototype.randomize, each_cell.
  set (l := Matrix.data this). set (r := Matrix.rows this).
  set (c := Matrix.cols this). set (d := draws s).
  assert (l < length (heap s)) as Hlt by eauto using lookup_lt_Some.
  pose (Inv := λ (i j : nat) (t : state), ∃ g',
    t = State (<[l := g']> (heap s)) (d + i * c + j) ∧
    grid_shape r c g' ∧
    ∀ i' j', i' < r → j' < c → i' < i ∨ (i' = i ∧ j' < j) →
      cell g' i' j' = (Math_random (d + i' * c + j') * 2 - 1)%float).
  destruct (loop_inv (λ i (_ : unit) t, Inv i 0 t)
    (λ i _, loop c (λ j _,
       let! x := random in write l i j (x * 2 - 1)%float) tt)
    r tt s) as ([] & s' & Hrun & g' & -> & Hs' & Hc').
  - exists g. split; [|split; [done|intros; lia]].
    destruct s as [h0 d0]. cbn in *. subst d.
    rewrite list_insert_id by done. f_equal. lia.
  - intros i [] t Hi Ht.
    destruct (loop_inv (λ j (_ : unit) t, Inv i j t)
      (λ j _, let! x := random in write l i j (x * 2 - 1)%float)
      c tt t Ht) as ([] & t' & Hrun & g' & -> & Hs' & Hc').
    + intros j [] u Hj (g1 & -> & Hs1 & Hc1).
      eexists tt, _. split.
      * unfold bind, random. cbn [heap draws].
        erewrite write_run; eauto.
        cbn. by rewrite list_lookup_insert_eq.
      * exists (grid_set i j
                  (Math_random (d + i * c + j) * 2 - 1)%float g1).
        split.
        { unfold store. cbn. rewrite list_insert_insert_eq.
          f_equal. lia. }
        split; [by apply grid_set_shape|].
        intros i' j' Hi' Hj' Hdone.
        rewrite (cell_grid_set r c) by done.
        case_decide as Heq; [by destruct Heq as [-> ->]|].
        apply Hc1; try done. lia.
    + exists tt, (State (<[l := g']> (heap s)) (d + i * c + c)).
      split; [done|]. exists g'. split; [f_equal; lia|].
      split; [done|]. intros i' j' Hi' Hj' Hdone.
      apply Hc'; try done. lia.
  - rewrite (bind_ok _ _ _ _ _ Hrun). unfold ret. do 2 f_equal; [|lia].
    f_equal. apply tabulate_eq; [done|].
    intros i j Hi Hj. apply Hc'; try done. lia.
Qed.

(** X8. [randomize] on a matrix whose grid has the shape it declares
    makes exactly [rows * cols] calls of [Math.random] and overwrites
    every entry, row by row: entry (i, j) becomes [u * 2 - 1] for [u] the
    call number [i * cols + j] (counted from its first call).  It returns
    the receiver and touches no other grid. *)
Theorem randomize_fills_row_major :
  ∀ (H : Host) this g s,
    holds s this g →
    ∃ g' s',
      MatrixPrototype.randomize this s = (Ok this, s') ∧
      draws s' = draws s + Matrix.rows this * Matrix.cols this ∧
      holds s' this g' ∧
      (∀ i j, i < Matrix.rows this → j < Matrix.cols this →
         cell g' i j =
           (Math_random (draws s + i * Matrix.cols this + j) * 2 - 1)%float) ∧
      (∀ l, l ≠ Matrix.data this → heap s' !! l = heap s !! l).
Proof.
  intros H this g s Hm. eexists _, _.
  split; [by eapply randomize_exact|]. split; [done|].
  pose proof (holds_lt _ _ _ Hm) as Hlt.
  split; [split; cbn; [by rewrite list_lookup_insert_eq|apply tabulate_shape]|].
  split.
  - intros i j Hi Hj. unfold random_grid. by rewrite tabulate_cell.
  - intros l Hl. cbn. by rewrite list_lookup_insert_ne.
Qed.

Lemma randomize_fills_row_major_witness :
  ∃ g' s',
    MatrixPrototype.randomize (H := example_host) (Matrix.Make 2 2 0)
      example_state = (Ok (Matrix.Make 2 2 0), s') ∧
    draws s' = draws example_state + 2 * 2 ∧
    holds s' (Matrix.Make 2 2 0) g'.
Proof.
  destruct (randomize_fills_row_major example_host (Matrix.Make 2 2 0)
              (W_ih example_weights) example_state)
    as (g' & s' & E & D & Hg & _).
  - split; [reflexivity|]. split; [reflexivity|by repeat constructor].
  - exists g', s'. exact (conj E (conj D Hg)).
Defined.

Lemma fresh_random_exact `{Host} r c s :
  (let! m := Matrix.constructor r c in MatrixPrototype.randomize m) s =
    (Ok (Matrix.Make r c (length (heap s))),
     State (heap s ++ [random_grid r c (draws s)]) (draws s + r * c)).
Proof.
  rewrite (bind_ok _ _ _ _ _ (constructor_run _ _ s)).
  erewrite randomize_exact by (apply holds_fresh, grid_shape_replicate).
  cbn. do 3 f_equal.
  replace (length (heap s)) with (length (heap s) + 0) at 1 by lia.
  by rewrite insert_app_r.
Qed.

(** X9. [new NeuralNetwork(i, h, o)] draws [h*i + o*h + h + o] random
    numbers, in this order: weights_ih, weights_ho, bias_h, bias_o, each
    row by row.  Its four grids are new, one after the other at the end
    of the store, and hold [u * 2 - 1] for the draws [u]; what the
    network is depends on the random source and the topology only. *)
Theorem constructor_draws_in_order :
  ∀ (H : Host) i h o s,
    let l := length (heap s) in
    let d := draws s in
    NeuralNetwork.constructor i h o s =
      (Ok (NeuralNetwork.Make i h o
             (Matrix.Make h i l) (Matrix.Make o h (S l))
             (Matrix.Make h 1 (S (S l))) (Matrix.Make o 1 (S (S (S l))))
             0.1%float),
       State (heap s ++
                [random_grid h i d;
                 random_grid o h (d + h * i);
                 random_grid h 1 (d + h * i + o * h);
                 random_grid o 1 (d + h * i + o * h + h)])
             (d + h * i + o * h + h + o)).
Proof.
  intros H i h o s. cbn zeta. unfold NeuralNetwork.constructor.
  rewrite (bind_ok _ _ _ _ _ (fresh_random_exact h i s)).
  rewrite (bind_ok _ _ _ _ _ (fresh_random_exact o h _)).
  rewrite (bind_ok _ _ _ _ _ (fresh_random_exact h 1 _)).
  rewrite (bind_ok _ _ _ _ _ (fresh_random_exact o 1 _)).
  unfold ret. cbn [heap draws]. rewrite !length_app. cbn [length].
  rewrite <- !app_assoc. cbn [app].
  repeat f_equal; lia.
Qed.

(** ** Malformed snapshots *)

Lemma loop_from_throws {A} (I : nat → A → state → Prop) (Q : state → Prop)
    body e m :
  ∀ n i acc s,
    m < n → I i acc s →
    (∀ k a t, i ≤ k < i + m → I k a t →
       ∃ a' t', body k a t = (Ok a', t') ∧ I (S k) a' t') →
    (∀ a t, I (i + m) a t → ∃ t', body (i + m) a t = (Throw e, t') ∧ Q t') →
    ∃ s', loop_from n i body acc s = (Throw e, s') ∧ Q s'.
Proof.
  induction m as [|m IH]; intros n i acc s Hn HI Hstep Hthrow;
    (destruct n as [|n]; [lia|]); simpl.
  - rewrite Nat.add_0_r in Hthrow.
    destruct (Hthrow acc s HI) as (t' & E & HQ).
    exists t'. by rewrite (bind_throw _ _ _ _ _ E).
  - destruct (Hstep i acc s) as (a1 & s1 & E & H1); [lia|done|].
    rewrite (bind_ok _ _ _ _ _ E).
    apply IH; [lia|done| |].
    + intros k a t Hk. apply Hstep. lia.
    + intros a t. replace (S i + m) with (i + S m) by lia. apply Hthrow.
Qed.

(** The product with a left operand whose grid has fewer rows than the
    matrix declares: the rows that exist are multiplied, the first missing
    one is [undefined[k]]. *)
Lemma multiply_missing_row a b ga gb s :
  heap s !! Matrix.data a = Some ga → length ga < Matrix.rows a →
  holds s b gb → Matrix.cols a = Matrix.rows b →
  0 < Matrix.cols a → 0 < Matrix.cols b →
  ∃ g', Matrix.multiply a b s = (Throw TypeError, alloc g' s).
Proof.
  intros Ha Hshort [Hb Hsb] Hn Hca Hcb. unfold Matrix.multiply.
  rewrite decide_False by lia. rewrite <- Hn in Hsb.
  rewrite (bind_ok _ _ _ _ _ (constructor_run _ _ s)).
  cbn [Matrix.rows Matrix.cols Matrix.data].
  set (l := length (heap s)).
  set (z := replicate (Matrix.rows a) (replicate (Matrix.cols b) 0%float)).
  pose (Inv := λ (t : state), ∃ g',
    t = store l g' (alloc z s) ∧
    grid_shape (Matrix.rows a) (Matrix.cols b) g').
  pose (Q := λ (t : state), ∃ g', t = store l g' (alloc z s)).
  unfold each_cell, loop.
  destruct (loop_from_throws (λ _ (_ : unit) t, Inv t) Q
    (λ i _, loop_from (Matrix.cols b) 0 (λ j _,
       let! sum := loop_from (Matrix.cols a) 0 (λ k sum,
          let! x := read (Matrix.data a) i k in
          let! y := read (Matrix.data b) k j in
          ret (sum + x * y)%float) 0%float in
       write l i j sum) tt)
    TypeError (length ga) (Matrix.rows a) 0 tt (alloc z s))
    as (s' & E & g' & ->).
  - done.
  - exists z. split; [|apply grid_shape_replicate].
    unfold l. by rewrite store_alloc_new.
  - intros i [] t Hi Ht.
    destruct (loop_from_inv (λ _ (_ : unit) t, Inv t)
      (λ j _, let! sum := loop_from (Matrix.cols a) 0 (λ k sum,
          let! x := read (Matrix.data a) i k in
          let! y := read (Matrix.data b) k j in
          ret (sum + x * y)%float) 0%float in
        write l i j sum)
      (Matrix.cols b) 0 tt t Ht) as ([] & t' & E & Ht').
    + intros j [] u Hj (g1 & -> & Hs1).
      set (u := store l g1 (alloc z s)).
      destruct (loop_from_inv (λ _ (_ : float) t, t = u)
        (λ k sum, let! x := read (Matrix.data a) i k in
                  let! y := read (Matrix.data b) k j in
                  ret (sum + x * y)%float)
        (Matrix.cols a) 0 0%float u eq_refl) as (sum & u' & E & ->).
      * intros k sum w Hk ->.
        destruct (lookup_lt_is_Some_2 ga i) as [row Hrow]; [lia|].
        eexists _, u. split; [|done].
        erewrite bind_ok.
        2:{ unfold read, u. rewrite (heap_fresh_old _ _ _ _ _ Ha), Hrow.
            reflexivity. }
        erewrite bind_ok by (eapply read_fresh_run; eauto; lia).
        done.
      * eexists tt, _. split.
        { rewrite (bind_ok _ _ _ _ _ E).
          eapply write_fresh_run; eauto; lia. }
        eexists. split; [done|]. apply grid_set_shape; done.
    + by exists tt, t'.
  - intros [] t (g1 & -> & Hs1). cbn [Nat.add].
    exists (store l g1 (alloc z s)). split; [|by exists g1].
    destruct (Matrix.cols b) as [|n]; [lia|]. simpl.
    apply bind_throw. apply bind_throw.
    destruct (Matrix.cols a) as [|n']; [lia|]. simpl.
    apply bind_throw. apply bind_throw.
    unfold read. rewrite (heap_fresh_old _ _ _ _ _ Ha).
    by rewrite lookup_ge_None_2 by lia.
  - exists g'. rewrite (bind_throw _ _ _ _ _ E).
    unfold l. by rewrite store_alloc_new.
Qed.

(** X11. [deserialize] validates nothing, and a snapshot whose weights_ih
    grid has fewer rows than its hiddenNodes says is found out by
    [predict] only: with at least one input node and an input vector of
    the right length, the first product reads a row that is not there and
    [predict] raises a TypeError, not one of the dimension errors.  The
    grids that existed before the two calls are as they were. *)
Theorem predict_after_short_snapshot :
  ∀ (H : Host) m d g x s,
    heap s !! SerializedNetwork.weights_ih d = Some g →
    length g < SerializedNetwork.hiddenNodes d →
    0 < SerializedNetwork.inputNodes d →
    length x = SerializedNetwork.inputNodes d →
    ∃ n' s1 s2,
      NeuralNetwork.deserialize m d s = (Ok n', s1) ∧
      NeuralNetwork.predict n' x s1 = (Throw TypeError, s2) ∧
      extends s s2.
Proof.
  intros H m d g x s Hg Hshort Hin Hx.
  pose proof (deserialize_run m d s) as Ed. cbn zeta in Ed.
  set (s1 := alloc _ (alloc _ (alloc _ (alloc _ s)))) in Ed.
  assert (extends s s1) as He by eauto using extends_alloc, extends_refl.
  destruct (multiply_missing_row
              (Matrix.Make (SerializedNetwork.hiddenNodes d)
                 (SerializedNetwork.inputNodes d)
                 (SerializedNetwork.weights_ih d))
              (Matrix.Make (length x) 1 (length (heap s1)))
              g (col_vector x) (alloc (col_vector x) s1))
    as (g' & E); cbn [Matrix.rows Matrix.cols Matrix.data]; try done; try lia.
  - rewrite heap_alloc_old by eauto using lookup_lt_Some, extends_lookup.
    eauto using extends_lookup.
  - apply holds_fresh, col_vector_shape.
  - eexists _, s1, (alloc g' (alloc (col_vector x) s1)).
    split; [exact Ed|]. split; [|eauto using extends_alloc].
    unfold NeuralNetwork.predict. cbn [NeuralNetwork.weights_ih].
    rewrite (bind_ok _ _ _ _ _ (fromArray_run x s1)).
    by rewrite (bind_throw _ _ _ _ _ E).
Qed.

Lemma predict_after_short_snapshot_witness :
  ∃ n' s1 s2,
    NeuralNetwork.deserialize example_network
      (SerializedNetwork.Make 2 2 1 1 1 2 3 0.1%float) example_state =
      (Ok n', s1) ∧
    NeuralNetwork.predict (H := example_host) n' [1; 1]%float s1 =
      (Throw TypeError, s2) ∧
    extends example_state s2.
Proof.
  apply (predict_after_short_snapshot example_host example_network
           (SerializedNetwork.Make 2 2 1 1 1 2 3 0.1%float)
           (W_ho example_weights) [1; 1]%float example_state).
  - reflexivity.
  - cbn. lia.
  - cbn. lia.
  - reflexivity.
Defined.

(** ** train, then predict *)

(** X12. The next [predict] sees the step: after a [train] call that
    completes on a well-formed network, [predict] on any input of the
    right length returns the forward pass through the updated weights,
    those of the seven steps of [train]. *)
Theorem predict_after_train :
  ∀ (H : Host) n G x t x' s,
    wf_network s n G →
    length x = NeuralNetwork.inputNodes n →
    length t = NeuralNetwork.outputNodes n →
    length x' = NeuralNetwork.inputNodes n →
    ∃ s',
      NeuralNetwork.train n x t s = (Ok tt, s') ∧
      (NeuralNetwork.predict n x' s').1 =
        Ok (predict_spec n (train_spec n G x t) x').
Proof.
  intros H n G x t x' s Hn Hx Ht Hx'.
  destruct (train_run n G x t s Hn Hx Ht) as (s' & E & [Hn' _] & _).
  exists s'. split; [exact E|].
  by rewrite (predict_run n _ x' s' Hn' Hx').
Qed.

Lemma predict_after_train_witness :
  ∃ s',
    NeuralNetwork.train (H := example_host) example_network
      [1; 1]%float [1]%float example_state = (Ok tt, s') ∧
    (NeuralNetwork.predict (H := example_host) example_network
       [0; 0]%float s').1 =
      Ok (predict_spec (H := example_host) example_network
            (train_spec (H := example_host) example_network example_weights
               [1; 1]%float [1]%float)
            [0; 0]%float).
Proof.
  exact (predict_after_train example_host example_network example_weights
           [1; 1]%float [1]%float [0; 0]%float example_state
           example_wf eq_refl eq_refl eq_refl).
Defined.

(** ** DataHelper: encoding names and genders *)

Section data_helper.
Import DataHelper.

Lemma indexOf_Some l c i :
  indexOf l c = Some i → l !! i = Some c.
Proof.
  revert i. induction l as [|x l IH]; intros i; [done|]. cbn.
  case_decide as Hx; [by intros [= <-]; subst|].
  destruct (indexOf l c) as [k|]; [|done]. cbn. intros [= <-]. by apply IH.
Qed.

Lemma indexOf_None l c : indexOf l c = None → c ∉ l.
Proof.
  induction l as [|x l IH]; cbn; [intros _; apply not_elem_of_nil|].
  case_decide as Hx; [done|].
  destruct (indexOf l c) as [k|]; [done|]. intros _.
  apply not_elem_of_cons. split; [congruence|]. by apply IH.
Qed.

Lemma indexOf_NoDup l c i :
  NoDup l → l !! i = Some c → indexOf l c = Some i.
Proof.
  intros Hnd Hi. destruct (indexOf l c) as [k|] eqn:E.
  - apply indexOf_Some in E. f_equal. by eapply NoDup_lookup.
  - apply indexOf_None in E. destruct E. by eapply list_elem_of_lookup_2.
Qed.

Lemma MYANMAR_CHARS_NoDup : NoDup MYANMAR_CHARS.
Proof. apply (bool_decide_unpack _). vm_compute. reflexivity. Qed.

Lemma row_set_inside j v row :
  j < length row → row_set j v row = <[j := v]> row.
Proof. intros Hj. unfold row_set. by rewrite decide_True. Qed.

(** The loop of [nameToVector], from any vector of the right length. *)
Lemma nameToVector_fold name :
  ∀ v, length v = VOCAB_SIZE →
    let v' :=
      fold_left
        (λ vector char,
           match indexOf MYANMAR_CHARS char with
           | Some index => row_set index 1%float vector
           | None => vector
           end) name v in
    length v' = VOCAB_SIZE ∧
    ∀ i c, MYANMAR_CHARS !! i = Some c →
      v' !! i = if decide (c ∈ name) then Some 1%float else v !! i.
Proof.
  induction name as [|ch name IH]; intros v Hv; cbn zeta.
  - split; [done|]. intros i c Hi. rewrite decide_False; [done|].
    apply not_elem_of_nil.
  - cbn [fold_left].
    destruct (indexOf MYANMAR_CHARS ch) as [idx|] eqn:E.
    + pose proof (indexOf_Some _ _ _ E) as Hidx.
      assert (idx < length v) as Hlt
        by (rewrite Hv; eauto using lookup_lt_Some).
      rewrite (row_set_inside idx 1%float v Hlt).
      destruct (IH (<[idx := 1%float]> v)) as [Hlen Hent];
        [by rewrite length_insert|].
      split; [done|]. intros i c Hi. rewrite (Hent i c Hi).
      destruct (decide (c ∈ name)) as [Hin|Hnin].
      * rewrite decide_True; [done|]. by apply elem_of_cons; right.
      * destruct (decide (idx = i)) as [->|Hne].
        -- assert (ch = c) as -> by congruence.
           rewrite decide_True by (by apply elem_of_cons; left).
           by rewrite list_lookup_insert_eq.
        -- rewrite list_lookup_insert_ne by done.
           rewrite decide_False; [done|].
           apply not_elem_of_cons. split; [|done]. intros ->.
           apply Hne.
           pose proof (indexOf_NoDup _ _ _ MYANMAR_CHARS_NoDup Hi).
           congruence.
    + destruct (IH v Hv) as [Hlen Hent]. split; [done|].
      intros i c Hi. rewrite (Hent i c Hi).
      apply indexOf_None in E.
      destruct (decide (c ∈ name)) as [Hin|Hnin].
      * rewrite decide_True; [done|]. by apply elem_of_cons; right.
      * rewrite decide_False; [done|].
        apply not_elem_of_cons. split; [|done]. intros ->.
        apply E. by eapply list_elem_of_lookup_2.
Qed.

(** Length and entries of an encoded name. *)
Lemma nameToVector_entries name :
  length (nameToVector name) = VOCAB_SIZE ∧
  ∀ i c, MYANMAR_CHARS !! i = Some c →
    nameToVector name !! i =
      Some (if decide (c ∈ name) then 1%float else 0%float).
Proof.
  destruct (nameToVector_fold name (replicate VOCAB_SIZE 0%float))
    as [Hlen Hent]; [by rewrite length_replicate|].
  split; [exact Hlen|].
  intros i c Hi. unfold nameToVector. rewrite (Hent i c Hi).
  case_decide; [done|].
  apply lookup_replicate_2. eauto using lookup_lt_Some.
Qed.

(** X13. [nameToVector] is the indicator vector of the vocabulary: for
    every name (the empty one, one of unknown characters only) the result
    has [VOCAB_SIZE = 38] entries, and entry [i] is [1] when the [i]-th
    vocabulary character occurs in the name and [0] when it does not. *)
Theorem nameToVector_is_indicator :
  ∀ name,
    length (nameToVector name) = VOCAB_SIZE ∧
    VOCAB_SIZE = 38 ∧
    ∀ i c, MYANMAR_CHARS !! i = Some c →
      nameToVector name !! i =
        Some (if decide (c ∈ name) then 1%float else 0%float).
Proof.
  intros name. destruct (nameToVector_entries name) as [Hlen Hent].
  split; [exact Hlen|]. split; [reflexivity|exact Hent].
Qed.

(** X14. The encoding keeps only which vocabulary characters occur: two
    names with the same vocabulary characters get the same vector,
    whatever the order, the repetitions and the characters outside the
    vocabulary (U+103A, which most names of the dataset contain, is one).
    A name without vocabulary characters is encoded as the zero vector. *)
Theorem nameToVector_forgets_order_and_unknowns :
  (∀ name1 name2,
     (∀ c, c ∈ MYANMAR_CHARS → c ∈ name1 ↔ c ∈ name2) →
     nameToVector name1 = nameToVector name2) ∧
  (∀ name,
     (∀ c, c ∈ name → c ∉ MYANMAR_CHARS) →
     nameToVector name = replicate VOCAB_SIZE 0%float) ∧
  0x103a%N ∉ MYANMAR_CHARS.
Proof.
  split_and!.
  - intros name1 name2 Hsame. apply list_eq. intros i.
    destruct (nameToVector_entries name1) as [L1 E1].
    destruct (nameToVector_entries name2) as [L2 E2].
    destruct (MYANMAR_CHARS !! i) as [c|] eqn:Hi.
    + rewrite (E1 i c Hi), (E2 i c Hi).
      pose proof (Hsame c (list_elem_of_lookup_2 _ _ _ Hi)) as Hc.
      do 2 case_decide; tauto.
    + apply lookup_ge_None in Hi. fold VOCAB_SIZE in Hi.
      by rewrite !lookup_ge_None_2 by lia.
  - intros name Hout. apply list_eq. intros i.
    destruct (nameToVector_entries name) as [L E].
    destruct (MYANMAR_CHARS !! i) as [c|] eqn:Hi.
    + rewrite (E i c Hi). rewrite decide_False.
      * symmetry. apply lookup_replicate_2. eauto using lookup_lt_Some.
      * intros Hin. apply (Hout c Hin). by eapply list_elem_of_lookup_2.
    + apply lookup_ge_None in Hi. fold VOCAB_SIZE in Hi.
      rewrite !lookup_ge_None_2; [done|by rewrite length_replicate|lia].
  - apply (bool_decide_unpack _). vm_compute. reflexivity.
Qed.

(** The first name of the dataset, U+1021 U+1031 U+102C U+1004 U+103A
    twice over, and the same name said once without U+103A. *)
Lemma nameToVector_forgets_order_and_unknowns_witness :
  nameToVector
    [0x1021; 0x1031; 0x102c; 0x1004; 0x103a;
     0x1021; 0x1031; 0x102c; 0x1004; 0x103a]%N =
  nameToVector [0x1004; 0x102c; 0x1031; 0x1021]%N.
Proof.
  apply (proj1 nameToVector_forgets_order_and_unknowns).
  intros c Hc. rewrite !elem_of_cons, !elem_of_nil.
  assert (c ≠ 0x103a%N).
  { intros ->. by apply (proj2 (proj2 nameToVector_forgets_order_and_unknowns)). }
  tauto.
Defined.

(** X15. [vectorToPrediction] undoes [genderToVector] on the two genders:
    the one-hot vector of a gender is read back as that gender with
    confidence 1.  [genderToVector] always returns [OUTPUT_NODES = 2]
    entries, and any string other than ['male'] is encoded as female. *)
Theorem gender_round_trip :
  (∀ g, g ∈ GENDERS →
     vectorToPrediction (genderToVector g) = Prediction g (Some 1%float)) ∧
  (∀ g, length (genderToVector g) = OUTPUT_NODES ∧ OUTPUT_NODES = 2) ∧
  (∀ g, g ≠ "male" → genderToVector g = genderToVector "female").
Proof.
  split_and!.
  - intros g Hg. unfold GENDERS in Hg.
    rewrite !elem_of_cons, elem_of_nil in Hg.
    destruct Hg as [->|[->|[]]]; vm_compute; reflexivity.
  - intros g. unfold genderToVector. by case_decide.
  - intros g Hg. unfold genderToVector. by rewrite decide_False.
Qed.

Lemma gender_round_trip_witness :
  vectorToPrediction (genderToVector "female") =
    Prediction "female" (Some 1%float).
Proof.
  apply (proj1 gender_round_trip). unfold GENDERS.
  apply elem_of_cons. right. apply elem_of_cons. by left.
Defined.

End data_helper.

(** ** The name classifier: DataHelper with NeuralNetwork *)

Lemma constructor_wf `{Host} i h o s :
  ∃ n s' G,
    NeuralNetwork.constructor i h o s = (Ok n, s') ∧
    wf_network s' n G ∧
    NeuralNetwork.inputNodes n = i ∧ NeuralNetwork.outputNodes n = o.
Proof.
  destruct (network_constructor_run i h o s)
    as (g1 & g2 & g3 & g4 & d & E & S1 & S2 & S3 & S4).
  cbn zeta in E. eexists _, _, (Weights g1 g2 g3 g4).
  split; [exact E|]. split; [|done].
  unfold wf_network, shape_invariant, headers_ok, holds, owns_distinct.
  cbn. split_and!; try done.
  - rewrite lookup_app_r by lia. by rewrite Nat.sub_diag.
  - rewrite lookup_app_r by lia.
    by replace (S (length (heap s)) - length (heap s)) with 1 by lia.
  - rewrite lookup_app_r by lia.
    by replace (S (S (length (heap s))) - length (heap s)) with 2 by lia.
  - rewrite lookup_app_r by lia.
    by replace (S (S (S (length (heap s)))) - length (heap s)) with 3 by lia.
  - apply NoDup_4. lia.
Qed.

(** X16. Every encoded name fits the classifier's network.  On a
    well-formed network with [VOCAB_SIZE] input nodes and [OUTPUT_NODES]
    output nodes (the App builds one with 15 hidden nodes),
    [train(nameToVector(name), genderToVector(gender))] completes for
    every name and gender and keeps the network well-formed; the
    [predict] that follows returns two numbers, so that
    [vectorToPrediction] answers one of the two genders with one of the
    two outputs, never [undefined], for confidence. *)
Theorem name_classifier_step_completes :
  ∀ (H : Host) n G name gender s,
    wf_network s n G →
    NeuralNetwork.inputNodes n = DataHelper.VOCAB_SIZE →
    NeuralNetwork.outputNodes n = OUTPUT_NODES →
    ∃ s' out s'',
      NeuralNetwork.train n (DataHelper.nameToVector name)
        (DataHelper.genderToVector gender) s = (Ok tt, s') ∧
      wf_network s' n
        (train_spec n G (DataHelper.nameToVector name)
           (DataHelper.genderToVector gender)) ∧
      NeuralNetwork.predict n (DataHelper.nameToVector name) s' =
        (Ok out, s'') ∧
      length out = 2 ∧
      DataHelper.gender (DataHelper.vectorToPrediction out)
        ∈ DataHelper.GENDERS ∧
      ∃ c, DataHelper.confidence (DataHelper.vectorToPrediction out) = Some c ∧
           c ∈ out.
Proof.
  intros H n G name gender s Hn Hi Ho.
  assert (length (DataHelper.nameToVector name) = NeuralNetwork.inputNodes n)
    as Hx.
  { rewrite Hi.
    apply (nameToVector_fold name (replicate DataHelper.VOCAB_SIZE 0%float)).
    by rewrite length_replicate. }
  assert (length (DataHelper.genderToVector gender) =
          NeuralNetwork.outputNodes n) as Ht.
  { rewrite Ho. unfold DataHelper.genderToVector. by case_decide. }
  destruct (train_run n _ _ _ s Hn Hx Ht) as (s' & E & Hn' & _).
  pose proof (predict_run n _ _ s' (proj1 Hn') Hx) as Ep.
  eexists s', _, _. split; [exact E|]. split; [exact Hn'|].
  split; [exact Ep|].
  pose proof (predict_spec_length n
    (train_spec n G (DataHelper.nameToVector name)
       (DataHelper.genderToVector gender))
    (DataHelper.nameToVector name)) as Hlen.
  rewrite Ho in Hlen. change OUTPUT_NODES with 2 in Hlen.
  split; [exact Hlen|].
  destruct (predict_spec _ _ _) as [|a [|b [|? ?]]]; try done.
  unfold DataHelper.vectorToPrediction, DataHelper.GENDERS, js_gt. cbn.
  destruct (PrimFloat.ltb b a); cbn.
  - split; [apply elem_of_cons; by left|].
    exists a. split; [done|]. apply elem_of_cons. by left.
  - split; [apply elem_of_cons; right; apply elem_of_cons; by left|].
    exists b. split; [done|]. apply elem_of_cons. right.
    apply elem_of_cons. by left.
Qed.

(** On the network the App builds, with the first name of the dataset. *)
Lemma name_classifier_step_completes_witness :
  ∃ n s0 s',
    NeuralNetwork.constructor (H := example_host)
      DataHelper.VOCAB_SIZE HIDDEN_NODES OUTPUT_NODES empty_state =
      (Ok n, s0) ∧
    NeuralNetwork.train (H := example_host) n
      (DataHelper.nameToVector
         [0x1021; 0x1031; 0x102c; 0x1004; 0x103a;
          0x1021; 0x1031; 0x102c; 0x1004; 0x103a]%N)
      (DataHelper.genderToVector "male") s0 = (Ok tt, s').
Proof.
  destruct (constructor_wf (H := example_host)
              DataHelper.VOCAB_SIZE HIDDEN_NODES OUTPUT_NODES empty_state)
    as (n & s0 & G & E & Hn & Hi & Ho).
  destruct (name_classifier_step_completes example_host n G
              [0x1021; 0x1031; 0x102c; 0x1004; 0x103a;
               0x1021; 0x1031; 0x102c; 0x1004; 0x103a]%N
              "male" s0 Hn Hi Ho)
    as (s' & out & s'' & Et & _).
  exists n, s0, s'. exact (conj E Et).
Defined.

(** ** Matrix: transpose, product, sum *)

(** X17. [Matrix.transpose(m)] on a matrix whose grid has the shape it
    declares returns a new cols×rows matrix whose entry (j, i) is entry
    (i, j) of [m]; the grid of [m] is as it was. *)
Theorem transpose_swaps_entries :
  ∀ m g s,
    holds s m g →
    ∃ result g' s',
      Matrix.transpose m s = (Ok result, s') ∧ extends s s' ∧
      Matrix.rows result = Matrix.cols m ∧
      Matrix.cols result = Matrix.rows m ∧
      holds s' result g' ∧ holds s' m g ∧
      ∀ i j, i < Matrix.rows m → j < Matrix.cols m →
        cell g' j i = cell g i j.
Proof.
  intros m g s Hm. eexists _, _, _.
  split; [by apply transpose_run|].
  split; [eauto using extends_alloc, extends_refl|].
  split; [done|]. split; [done|].
  split; [apply holds_fresh, g_transpose_shape|].
  split; [by apply holds_alloc|].
  intros i j Hi Hj. unfold g_transpose. by rewrite tabulate_cell.
Qed.

Lemma transpose_swaps_entries_witness :
  ∃ result g' s',
    Matrix.transpose (Matrix.Make 1 2 1) example_state = (Ok result, s') ∧
    Matrix.rows result = 2 ∧ Matrix.cols result = 1 ∧
    holds s' result g'.
Proof.
  destruct (transpose_swaps_entries (Matrix.Make 1 2 1)
              (W_ho example_weights) example_state)
    as (result & g' & s' & E & _ & Hr & Hc & Hg & _).
  - split; [reflexivity|]. split; [reflexivity|by repeat constructor].
  - exists result, g', s'. exact (conj E (conj Hr (conj Hc Hg))).
Defined.

(** X18. The static [Matrix.multiply(a, b)] with [a.cols = b.rows], on
    matrices whose grids have the shapes they declare, returns a new
    a.rows×b.cols matrix whose entry (i, j) is the sum
    [0 + a_i0 * b_0j + a_i1 * b_1j + ...], added from the left; the
    grids of [a] and [b] are as they were.  With [a.cols = 0] every entry
    is [0]. *)
Theorem multiply_is_dot_product :
  ∀ a b ga gb s,
    holds s a ga → holds s b gb → Matrix.cols a = Matrix.rows b →
    ∃ result g s',
      Matrix.multiply a b s = (Ok result, s') ∧ extends s s' ∧
      Matrix.rows result = Matrix.rows a ∧
      Matrix.cols result = Matrix.cols b ∧
      holds s' result g ∧ holds s' a ga ∧ holds s' b gb ∧
      (∀ i j, i < Matrix.rows a → j < Matrix.cols b →
         cell g i j =
           fold_left (λ sum k, (sum + cell ga i k * cell gb k j)%float)
             (seq 0 (Matrix.cols a)) 0%float) ∧
      (Matrix.cols a = 0 →
       ∀ i j, i < Matrix.rows a → j < Matrix.cols b → cell g i j = 0%float).
Proof.
  intros a b ga gb s Ha Hb Hn. eexists _, _, _.
  split; [by eapply multiply_static_run|].
  split; [eauto using extends_alloc, extends_refl|].
  split; [done|]. split; [done|].
  split; [apply holds_fresh, g_mul_shape|].
  split; [by apply holds_alloc|]. split; [by apply holds_alloc|].
  split.
  - intros i j Hi Hj. unfold g_mul. by rewrite tabulate_cell.
  - intros H0 i j Hi Hj. unfold g_mul. rewrite tabulate_cell by done.
    by rewrite H0.
Qed.

Lemma multiply_is_dot_product_witness :
  ∃ result g s',
    Matrix.multiply (Matrix.Make 1 2 1) (Matrix.Make 2 1 2) example_state =
      (Ok result, s') ∧
    Matrix.rows result = 1 ∧ Matrix.cols result = 1 ∧
    holds s' result g.
Proof.
  destruct (multiply_is_dot_product (Matrix.Make 1 2 1) (Matrix.Make 2 1 2)
              (W_ho example_weights) (B_h example_weights) example_state)
    as (result & g & s' & E & _ & Hr & Hc & Hg & _).
  - split; [reflexivity|]. split; [reflexivity|by repeat constructor].
  - split; [reflexivity|]. split; [reflexivity|by repeat constructor].
  - reflexivity.
  - exists result, g, s'. exact (conj E (conj Hr (conj Hc Hg))).
Defined.

(** X19. [m.add(n)] and [m.multiply(n)] with a matrix [n] of the same
    declared dimensions update the receiver in place, entry by entry, to
    [m_ij + n_ij], respectively [m_ij * n_ij], and return the receiver;
    when [n] is another grid than [m]'s it is left as it was, like every
    other grid. *)
Theorem add_and_multiply_are_entrywise :
  ∀ m n g gn s,
    holds s m g → holds s n gn →
    Matrix.rows m = Matrix.rows n → Matrix.cols m = Matrix.cols n →
    ∃ g1 g2,
      MatrixPrototype.add m (OfMatrix n) s =
        (Ok m, store (Matrix.data m) g1 s) ∧
      MatrixPrototype.multiply m (OfMatrix n) s =
        (Ok m, store (Matrix.data m) g2 s) ∧
      holds (store (Matrix.data m) g1 s) m g1 ∧
      holds (store (Matrix.data m) g2 s) m g2 ∧
      (∀ i j, i < Matrix.rows m → j < Matrix.cols m →
         cell g1 i j = (cell g i j + cell gn i j)%float ∧
         cell g2 i j = (cell g i j * cell gn i j)%float) ∧
      (∀ l g0 gx, l ≠ Matrix.data m → heap s !! l = Some g0 →
         heap (store (Matrix.data m) gx s) !! l = Some g0).
Proof.
  intros m n g gn s Hm Hn Hr Hc. eexists _, _.
  split; [by apply add_run|]. split; [by apply hadamard_run|].
  split; [eapply holds_store_eq; eauto using g_add_shape|].
  split; [eapply holds_store_eq; eauto using g_hadamard_shape|].
  split.
  - intros i j Hi Hj. unfold g_add, g_hadamard. by rewrite !tabulate_cell.
  - intros l g0 gx Hl Hg0. by rewrite heap_store_ne.
Qed.

Lemma add_and_multiply_are_entrywise_witness :
  ∃ g1,
    MatrixPrototype.add (Matrix.Make 2 1 2) (OfMatrix (Matrix.Make 2 1 2))
      example_state = (Ok (Matrix.Make 2 1 2), store 2 g1 example_state) ∧
    holds (store 2 g1 example_state) (Matrix.Make 2 1 2) g1.
Proof.
  destruct (add_and_multiply_are_entrywise (Matrix.Make 2 1 2)
              (Matrix.Make 2 1 2) (B_h example_weights)
              (B_h example_weights) example_state)
    as (g1 & g2 & E & _ & Hg & _).
  - split; [reflexivity|]. split; [reflexivity|by repeat constructor].
  - split; [reflexivity|]. split; [reflexivity|by repeat constructor].
  - reflexivity.
  - reflexivity.
  - exists g1. exact (conj E Hg).
Defined.

(** ** What train leaves alone *)

(** X20. A [train] call that completes on a well-formed network changes
    the four grids of that network and nothing that existed besides: any
    other grid of the store (the weights of another network, a snapshot
    of one) is where it was and as it was, and no random number is
    drawn. *)
Theorem train_touches_own_grids_only :
  ∀ (H : Host) n G x t s,
    wf_network s n G →
    length x = NeuralNetwork.inputNodes n →
    length t = NeuralNetwork.outputNodes n →
    ∃ s',
      NeuralNetwork.train n x t s = (Ok tt, s') ∧
      draws s' = draws s ∧
      ∀ l g, heap s !! l = Some g →
        l ≠ Matrix.data (NeuralNetwork.weights_ih n) →
        l ≠ Matrix.data (NeuralNetwork.weights_ho n) →
        l ≠ Matrix.data (NeuralNetwork.bias_h n) →
        l ≠ Matrix.data (NeuralNetwork.bias_o n) →
        heap s' !! l = Some g.
Proof.
  intros H n G x t s Hn Hx Ht.
  destruct (train_run n G x t s Hn Hx Ht) as (s' & E & _ & Hd & Hframe).
  exists s'. split; [exact E|]. split; [exact Hd|].
  intros l g Hl N1 N2 N3 N4. apply Hframe; [done|].
  apply not_elem_of_4. done.
Qed.

Lemma train_touches_own_grids_only_witness :
  ∃ s',
    NeuralNetwork.train (H := example_host) example_network
      [1; 1]%float [1]%float example_state = (Ok tt, s') ∧
    draws s' = draws example_state.
Proof.
  destruct (train_touches_own_grids_only example_host example_network
              example_weights [1; 1]%float [1]%float example_state
              example_wf eq_refl eq_refl)
    as (s' & E & Hd & _).
  exists s'. exact (conj E Hd).
Defined.
